(** * Bouncing ball in a growing polygon: polygon.js, ball.js, app.js

    A shallow embedding of the geometry and physics kernel (the [Polygon]
    class, the [BallSim] class and the driver's [update] and
    [handleRecursiveUpdates]) together with the properties of the
    specification that concern them.

    JavaScript numbers are IEEE-754 doubles.  The kernel is written once,
    over an interface of arithmetic operations, and read at two instances:
    - [float_arith], [float_math]: Rocq's primitive binary64 floats,
      bit-exact for the operations of the language itself ([+ - * /],
      comparisons) and for [Math.sqrt], used to evaluate code on concrete
      inputs;
    - [R_arith], [R_math]: the real numbers, i.e. the same code with exact
      arithmetic, used for the geometric laws that the specification
      states "within tolerance".  The reals have no NaN and no infinity:
      every statement over the reals that reaches a division carries the
      hypothesis that makes the divisor non-zero. *)

From Stdlib Require Import ZArith List Bool Lia.
From Stdlib Require Import Reals Lra.
From Stdlib Require Import Floats.
Import ListNotations.

(** ** Numbers *)

(** The operators of the language on numbers. *)
Class Arith (num : Type) : Type := {
  ofZ : Z -> num;                 (* an integer literal *)
  add : num -> num -> num;
  sub : num -> num -> num;
  mul : num -> num -> num;
  div : num -> num -> num;
  neg : num -> num;               (* unary minus *)
  ltb : num -> num -> bool;       (* [a < b] *)
  leb : num -> num -> bool        (* [a <= b] *)
}.

(** The functions of the [Math] object and the coercions to boolean and to
    a loop count.  ECMAScript leaves [Math.cos], [Math.sin], [Math.hypot]
    and [Math.pow] implementation-approximated: at the reals they are the
    exact functions, at doubles they are parameters of the instance. *)
Class MathLib (num : Type) `{Arith num} : Type := {
  PI : num;
  cos : num -> num;
  sin : num -> num;
  sqrt : num -> num;
  hypot : num -> num -> num;
  pow : num -> num -> num;
  max : num -> num -> num;
  min : num -> num -> num;
  floor : num -> Z;               (* [Math.floor], an integral number read as the integer it denotes *)
  truthy : num -> bool;           (* [ToBoolean]: false on 0 (and NaN) *)
  ltInfinity : num -> bool        (* [a < Infinity] *)
}.

Declare Scope js_scope.
Delimit Scope js_scope with js.
Infix "+" := add : js_scope.
Infix "-" := sub : js_scope.
Infix "*" := mul : js_scope.
Infix "/" := div : js_scope.
Infix "<?" := ltb : js_scope.
Infix "<=?" := leb : js_scope.
Notation "- a" := (neg a) : js_scope.

(** A decimal literal [n/d] with [d] a power of ten: the double nearest to
    the rational, which correctly rounded division of two exactly
    representable integers yields. *)
Definition dec {num} `{Arith num} (n d : Z) : num := div (ofZ n) (ofZ d).

(** *** IEEE-754 binary64 *)

Definition float_ofZ (z : Z) : float :=
  match z with
  | Z0 => PrimFloat.zero
  | Zpos _ => PrimFloat.of_uint63 (Uint63.of_Z z)
  | Zneg _ => PrimFloat.opp (PrimFloat.of_uint63 (Uint63.of_Z (Z.opp z)))
  end.

#[export] Instance float_arith : Arith float := {|
  ofZ := float_ofZ;
  add := PrimFloat.add;
  sub := PrimFloat.sub;
  mul := PrimFloat.mul;
  div := PrimFloat.div;
  neg := PrimFloat.opp;
  ltb := PrimFloat.ltb;
  leb := PrimFloat.leb
|}.

(** [Math.floor] of a finite double, as an integer.  NaN and the
    infinities denote no integer; 0 stands for them. *)
Definition float_floor (a : float) : Z :=
  match Prim2SF a with
  | S754_finite s m e =>
      let v := if s then Zneg m else Zpos m in
      if (0 <=? e)%Z then (v * 2 ^ e)%Z else (v / 2 ^ (- e))%Z
  | _ => 0%Z
  end.

(** [Math.max] and [Math.min] of two arguments: NaN if either is NaN, and
    [+0] counts as larger than [-0]. *)
Definition float_max (a b : float) : float :=
  if PrimFloat.is_nan a || PrimFloat.is_nan b then PrimFloat.nan
  else if PrimFloat.ltb a b then b
  else if PrimFloat.ltb b a then a
  else if PrimFloat.eqb a PrimFloat.zero then PrimFloat.add a b
  else a.

Definition float_min (a b : float) : float :=
  if PrimFloat.is_nan a || PrimFloat.is_nan b then PrimFloat.nan
  else if PrimFloat.ltb a b then a
  else if PrimFloat.ltb b a then b
  else if PrimFloat.eqb a PrimFloat.zero
       then PrimFloat.opp (PrimFloat.add (PrimFloat.opp a) (PrimFloat.opp b))
  else a.

(** [ToBoolean] of a number: false on [+0], [-0] and NaN. *)
Definition float_truthy (a : float) : bool :=
  negb (PrimFloat.eqb a PrimFloat.zero || PrimFloat.is_nan a).

Section Doubles.
(** What an engine computes for the implementation-approximated
    functions. *)
Variables approx_cos approx_sin : float -> float.
Variables approx_hypot approx_pow : float -> float -> float.

Definition float_math : MathLib float := {|
  PI := 0x1.921fb54442d18p+1%float;
  cos := approx_cos;
  sin := approx_sin;
  sqrt := PrimFloat.sqrt;
  hypot := approx_hypot;
  pow := approx_pow;
  max := float_max;
  min := float_min;
  floor := float_floor;
  truthy := float_truthy;
  ltInfinity := fun a => PrimFloat.ltb a PrimFloat.infinity
|}.
End Doubles.

(** *** Exact arithmetic

    The reals agree with the doubles up to rounding where the doubles are
    finite.  They differ where a double is NaN or infinite: a quotient
    with divisor 0 is 0 here, and [Rpower], taken for [Math.pow], is 1 for
    a base that is not positive.  Equal distances are exactly equal here,
    where on doubles they may differ in the last bits.  The statements
    over the reals therefore assume what keeps them off these cases
    (distinct endpoints, a non-zero radius, a positive friction) and
    choose no edge among equally near ones. *)

Definition Rltb (a b : R) : bool := if Rlt_dec a b then true else false.
Definition Rleb (a b : R) : bool := if Rle_dec a b then true else false.
Definition Rtruthy (a : R) : bool := if Req_dec_T a 0 then false else true.

#[export] Instance R_arith : Arith R := {|
  ofZ := IZR;
  add := Rplus;
  sub := Rminus;
  mul := Rmult;
  div := Rdiv;
  neg := Ropp;
  ltb := Rltb;
  leb := Rleb
|}.

#[export] Instance R_math : MathLib R := {|
  PI := Rtrigo1.PI;
  cos := Rtrigo_def.cos;
  sin := Rtrigo_def.sin;
  sqrt := R_sqrt.sqrt;
  hypot := fun a b => R_sqrt.sqrt (a * a + b * b);
  pow := Rpower;
  max := Rmax;
  min := Rmin;
  floor := Zfloor;
  truthy := Rtruthy;
  ltInfinity := fun _ => true
|}.

(** ** Points: the object literals [{x, y}] *)

Module Vec.
Record t (num : Type) : Type := mk { x : num; y : num }.
Arguments mk {num} _ _.
Arguments x {num} _.
Arguments y {num} _.
End Vec.

(** ** polygon.js *)

Module Polygon.

(** The loop variable [best] of [collideCircle]: one of the objects
    [{dist, cp, i, a, b}]; the initial [{dist: Infinity}] is [None]. *)
Module Best.
Record t (num : Type) : Type := mk {
  dist : num;
  cp : Vec.t num;
  i : nat;
  a : Vec.t num;
  b : Vec.t num
}.
Arguments mk {num} _ _ _ _ _.
Arguments dist {num} _.
Arguments cp {num} _.
Arguments i {num} _.
Arguments a {num} _.
Arguments b {num} _.
End Best.

(** The result [{hit: true, edgeIndex, pt, normal, penetration}] of
    [collideCircle]; [{hit: false}] is [None]. *)
Module Collision.
Record t (num : Type) : Type := mk {
  edgeIndex : nat;
  pt : Vec.t num;
  normal : Vec.t num;
  penetration : num
}.
Arguments mk {num} _ _ _ _.
Arguments edgeIndex {num} _.
Arguments pt {num} _.
Arguments normal {num} _.
Arguments penetration {num} _.
End Collision.

Section Segment.
Context {num : Type} `{A : Arith num}.
Local Open Scope js_scope.

(** [static closestPointOnSegment(px,py, ax,ay, bx,by)]: the closest
    point on the segment AB to the point P. *)
Definition closestPointOnSegment (px py ax ay bx by_ : num) : Vec.t num :=
  let vx := bx - ax in
  let vy := by_ - ay in
  let wx := px - ax in
  let wy := py - ay in
  let c1 := vx * wx + vy * wy in
  let c2 := vx * vx + vy * vy in
  let t := c1 / c2 in
  let t := if t <? ofZ 0 then ofZ 0 else t in
  let t := if ofZ 1 <? t then ofZ 1 else t in
  Vec.mk (ax + vx * t) (ay + vy * t).
End Segment.

Section Kernel.
Context {num : Type} `{ML : MathLib num}.
Local Open Scope js_scope.

Record t : Type := mk {
  cx : num;
  cy : num;
  radius : num;
  sides : Z;
  rotation : num;
  vertices : list (Vec.t num)
}.

(** [updateVertices()]: the loop [for (i = 0; i < this.sides; i++)]
    pushes one vertex per index, in order. *)
Definition updateVertices (this : t) : t :=
  let twoPI := PI * ofZ 2 in
  let verts :=
    map (fun i : nat =>
           let ang := rotation this + (ofZ (Z.of_nat i) / ofZ (sides this)) * twoPI in
           let x := cx this + cos ang * radius this in
           let y := cy this + sin ang * radius this in
           Vec.mk x y)
        (seq 0 (Z.to_nat (sides this))) in
  mk (cx this) (cy this) (radius this) (sides this) (rotation this) verts.

(** [new Polygon(cx, cy, radius, sides, rotation)]; the defaults
    [sides = 6], [rotation = 0] are for omitted arguments. *)
Definition new (cx cy radius sides rotation : num) : t :=
  updateVertices (mk cx cy radius (Z.max 3 (floor sides)) rotation []).

Definition setSides (this : t) (n : num) : t :=
  updateVertices
    (mk (cx this) (cy this) (radius this) (Z.max 3 (floor n)) (rotation this) (vertices this)).

Definition setRadius (this : t) (r : num) : t :=
  updateVertices
    (mk (cx this) (cy this) r (sides this) (rotation this) (vertices this)).

Definition setCenter (this : t) (x y : num) : t :=
  updateVertices
    (mk x y (radius this) (sides this) (rotation this) (vertices this)).

(** [(this.cx, this.cy)], for the methods whose parameters are named
    [cx] and [cy] too. *)
Definition center (this : t) : Vec.t num := Vec.mk (cx this) (cy this).

(** [this.vertices[k]]; every index the loop uses is below the length. *)
Definition vertex (vs : list (Vec.t num)) (k : nat) : Vec.t num :=
  nth k vs (Vec.mk (ofZ 0) (ofZ 0)).

(** One iteration of the loop over the edges. *)
Definition scanEdge (vs : list (Vec.t num)) (cx cy : num)
    (best : option (Best.t num)) (i : nat) : option (Best.t num) :=
  let n := length vs in
  let a := vertex vs i in
  let b := vertex vs ((i + 1) mod n) in
  let cp := closestPointOnSegment cx cy (Vec.x a) (Vec.y a) (Vec.x b) (Vec.y b) in
  let dx := cx - Vec.x cp in
  let dy := cy - Vec.y cp in
  let dist := sqrt (dx * dx + dy * dy) in
  let closer :=
    match best with
    | None => ltInfinity dist
    | Some best => dist <? Best.dist best
    end in
  if closer then Some (Best.mk dist cp i a b) else best.

(** [collideCircle(cx, cy, r)], with the receiver returned next to the
    result so that its effect on the polygon is part of the model.  With
    [best] still [{dist: Infinity}] the test [best.dist <= r + 0.0001]
    fails for every finite [r]. *)
Definition collideCircle (this : t) (cx cy r : num) : option (Collision.t num) * t :=
  let n := length (vertices this) in
  let best := fold_left (scanEdge (vertices this) cx cy) (seq 0 n) None in
  match best with
  | None => (None, this)
  | Some best =>
      if Best.dist best <=? r + dec 1 10000 then
        let ax := Vec.x (Best.a best) in
        let ay := Vec.y (Best.a best) in
        let bx := Vec.x (Best.b best) in
        let by_ := Vec.y (Best.b best) in
        let ex := bx - ax in
        let ey := by_ - ay in
        let nx := - ey in
        let ny := ex in
        let nl := let h := hypot nx ny in if truthy h then h else ofZ 1 in
        let nx := nx / nl in
        let ny := ny / nl in
        let tx := Vec.x (Best.cp best) - Vec.x (center this) in
        let ty := Vec.y (Best.cp best) - Vec.y (center this) in
        let flip := tx * nx + ty * ny <? ofZ 0 in
        let nx := if flip then - nx else nx in
        let ny := if flip then - ny else ny in
        (Some (Collision.mk (Best.i best) (Best.cp best) (Vec.mk nx ny) (r - Best.dist best)), this)
      else (None, this)
  end.
End Kernel.
End Polygon.

(** ** ball.js *)

Module BallSim.

(** [inner.ball], the ball of the first nested level. *)
Module InnerBall.
Record t (num : Type) : Type := mk {
  x : num; y : num; vx : num; vy : num; radius : num; gravity : num
}.
Arguments mk {num} _ _ _ _ _ _.
Arguments x {num} _.
Arguments y {num} _.
Arguments vx {num} _.
Arguments vy {num} _.
Arguments radius {num} _.
Arguments gravity {num} _.
End InnerBall.

(** [inner.extra.ball], the ball of the second nested level. *)
Module ExtraBall.
Record t (num : Type) : Type := mk {
  x : num; y : num; vx : num; vy : num; radius : num
}.
Arguments mk {num} _ _ _ _ _.
Arguments x {num} _.
Arguments y {num} _.
Arguments vx {num} _.
Arguments vy {num} _.
Arguments radius {num} _.
End ExtraBall.

(** [inner.extra], created by the driver. *)
Module Extra.
Record t (num : Type) : Type := mk {
  polygonSides : num;
  ball : ExtraBall.t num
}.
Arguments mk {num} _ _.
Arguments polygonSides {num} _.
Arguments ball {num} _.
End Extra.

(** [this.inner]; [extra] is absent until the driver adds it. *)
Module Inner.
Record t (num : Type) : Type := mk {
  cx : num;
  cy : num;
  radius : num;
  polygonSides : num;
  ball : InnerBall.t num;
  extra : option (Extra.t num)
}.
Arguments mk {num} _ _ _ _ _ _.
Arguments cx {num} _.
Arguments cy {num} _.
Arguments radius {num} _.
Arguments polygonSides {num} _.
Arguments ball {num} _.
Arguments extra {num} _.
End Inner.

(** The [options] argument of the constructor; [None] is an absent
    property.  ([color] is read by the drawing code only.) *)
Module Options.
Record t (num : Type) : Type := mk {
  radius : option num;
  gravity : option num;
  friction : option num;
  nestedDepth : option num;
  maxNestedDepth : option num
}.
Arguments mk {num} _ _ _ _ _.
Arguments radius {num} _.
Arguments gravity {num} _.
Arguments friction {num} _.
Arguments nestedDepth {num} _.
Arguments maxNestedDepth {num} _.
End Options.

Record t (num : Type) : Type := mk {
  x : num;
  y : num;
  vx : num;
  vy : num;
  radius : num;
  gravity : num;
  friction : num;
  nestedDepth : num;
  maxNestedDepth : num;
  inner : option (Inner.t num)     (* [null] is [None] *)
}.
Arguments mk {num} _ _ _ _ _ _ _ _ _ _.
Arguments x {num} _.
Arguments y {num} _.
Arguments vx {num} _.
Arguments vy {num} _.
Arguments radius {num} _.
Arguments gravity {num} _.
Arguments friction {num} _.
Arguments nestedDepth {num} _.
Arguments maxNestedDepth {num} _.
Arguments inner {num} _.

Section Methods.
Context {num : Type} `{ML : MathLib num}.
Local Open Scope js_scope.

(** [v || d] on a possibly absent number. *)
Definition orElse (v : option num) (d : num) : num :=
  match v with
  | Some v => if truthy v then v else d
  | None => d
  end.

(** [v ?? d] *)
Definition nullish (v : option num) (d : num) : num :=
  match v with
  | Some v => v
  | None => d
  end.

(** [new BallSim(x, y, vx, vy, options)].  [u1] and [u2] are the values
    of the two calls of [Math.random()], made when the inner level is
    built. *)
Definition new (x y vx vy : num) (options : Options.t num) (u1 u2 : num) : t num :=
  let vx := if truthy vx then vx else ofZ 0 in
  let vy := if truthy vy then vy else ofZ 0 in
  let radius := orElse (Options.radius options) (ofZ 36) in
  let gravity := nullish (Options.gravity options) (ofZ 800) in
  let friction := nullish (Options.friction options) (dec 995 1000) in
  let nestedDepth := orElse (Options.nestedDepth options) (ofZ 0) in
  let maxNestedDepth := nullish (Options.maxNestedDepth options) (ofZ 3) in
  let inner :=
    if nestedDepth <? maxNestedDepth then
      let scale := dec 42 100 in
      Some (Inner.mk
              (ofZ 0)
              (ofZ 0)
              (radius * scale)
              (max (ofZ 3) (ofZ 4 + nestedDepth))
              (InnerBall.mk
                 (- radius * dec 12 100)
                 (- radius * dec 14 100)
                 ((u1 - dec 5 10) * ofZ 40)
                 ((u2 - dec 5 10) * ofZ 40)
                 (max (ofZ 6) (radius * dec 22 100))
                 (gravity * dec 11 10))
              None)
    else None in
  mk x y vx vy radius gravity friction nestedDepth maxNestedDepth inner.

Definition applyGravity (this : t num) (dt : num) : t num :=
  mk (x this) (y this) (vx this) (vy this + gravity this * dt) (radius this)
     (gravity this) (friction this) (nestedDepth this) (maxNestedDepth this)
     (inner this).

Definition integrate (this : t num) (dt : num) : t num :=
  let x := x this + vx this * dt in
  let y := y this + vy this * dt in
  let vx := vx this * pow (friction this) (dt * ofZ 60) in
  let vy := vy this * pow (friction this) (dt * ofZ 60) in
  mk x y vx vy (radius this) (gravity this) (friction this) (nestedDepth this)
     (maxNestedDepth this) (inner this).

(** The three steps of the collision response, in the order of the
    source: reflect the velocity along the normal, push the ball out of
    the wall, damp the velocity. *)
Definition reflect (v n : Vec.t num) : Vec.t num :=
  let nx := Vec.x n in
  let ny := Vec.y n in
  let vdotn := Vec.x v * nx + Vec.y v * ny in
  Vec.mk (Vec.x v - ofZ 2 * vdotn * nx) (Vec.y v - ofZ 2 * vdotn * ny).

Definition pushOut (p n : Vec.t num) (penetration margin : num) : Vec.t num :=
  Vec.mk (Vec.x p + Vec.x n * (penetration + margin))
         (Vec.y p + Vec.y n * (penetration + margin)).

Definition damp (v : Vec.t num) : Vec.t num :=
  Vec.mk (Vec.x v * dec 98 100) (Vec.y v * dec 98 100).

(** [handleCollisionWithPolygon(polygon)]: the result, the receiver and
    the polygon after the call. *)
Definition handleCollisionWithPolygon (this : t num) (polygon : Polygon.t)
    : bool * t num * Polygon.t :=
  let (col, polygon) := Polygon.collideCircle polygon (x this) (y this) (radius this) in
  match col with
  | Some col =>
      let v := reflect (Vec.mk (vx this) (vy this)) (Polygon.Collision.normal col) in
      let p := pushOut (Vec.mk (x this) (y this)) (Polygon.Collision.normal col)
                       (Polygon.Collision.penetration col) (dec 5 10) in
      let v := damp v in
      (true,
       mk (Vec.x p) (Vec.y p) (Vec.x v) (Vec.y v) (radius this) (gravity this)
          (friction this) (nestedDepth this) (maxNestedDepth this) (inner this),
       polygon)
  | None => (false, this, polygon)
  end.

(** The assignment [this.inner = ip]; also the receiver after its
    [inner] object was updated in place. *)
Definition withInner (this : t num) (ip : option (Inner.t num)) : t num :=
  mk (x this) (y this) (vx this) (vy this) (radius this) (gravity this)
     (friction this) (nestedDepth this) (maxNestedDepth this) ip.

(** [updateInner(dt)] *)
Definition updateInner (this : t num) (dt : num) : bool * t num :=
  match inner this with
  | None => (false, this)
  | Some ip =>
      let b := Inner.ball ip in
      let vy := InnerBall.vy b + (gravity this * dec 5 10) * dt in
      let x := InnerBall.x b + InnerBall.vx b * dt in
      let y := InnerBall.y b + vy * dt in
      let vx := InnerBall.vx b * dec 999 1000 in
      let vy := vy * dec 999 1000 in
      let innerPoly :=
        Polygon.new (Inner.cx ip) (Inner.cy ip) (Inner.radius ip)
                    (Inner.polygonSides ip) (PI / ofZ 2) in
      let (col, _) := Polygon.collideCircle innerPoly x y (InnerBall.radius b) in
      match col with
      | Some col =>
          let v := reflect (Vec.mk vx vy) (Polygon.Collision.normal col) in
          let p := pushOut (Vec.mk x y) (Polygon.Collision.normal col)
                           (Polygon.Collision.penetration col) (dec 5 10) in
          let v := damp v in
          let b := InnerBall.mk (Vec.x p) (Vec.y p) (Vec.x v) (Vec.y v)
                                (InnerBall.radius b) (InnerBall.gravity b) in
          let ip := Inner.mk (Inner.cx ip) (Inner.cy ip) (Inner.radius ip)
                             (min (ofZ 20) (Inner.polygonSides ip + ofZ 1))
                             b (Inner.extra ip) in
          (true, withInner this (Some ip))
      | None =>
          let b := InnerBall.mk x y vx vy (InnerBall.radius b) (InnerBall.gravity b) in
          let ip := Inner.mk (Inner.cx ip) (Inner.cy ip) (Inner.radius ip)
                             (Inner.polygonSides ip) b (Inner.extra ip) in
          (false, withInner this (Some ip))
      end
  end.
End Methods.
End BallSim.

(** ** app.js *)

Module App.

(** The variables of the closure that the update path reads and writes.
    The canvas, its 2D context and the DOM elements are outside the model:
    the size of the canvas is an input of every step that reads it. *)
Module World.
Record t (num : Type) : Type := mk {
  worldPolygon : option (@Polygon.t num);   (* [undefined] before [init] *)
  ball : option (BallSim.t num);
  lastTime : option num;                    (* [null] is [None] *)
  maxNestedDepth : num
}.
Arguments mk {num} _ _ _ _.
Arguments worldPolygon {num} _.
Arguments ball {num} _.
Arguments lastTime {num} _.
Arguments maxNestedDepth {num} _.
End World.

(** What one animation frame reads from its environment: the timestamp,
    [canvas.clientWidth], [canvas.clientHeight] and the two values
    [Math.random()] returns if the frame calls it. *)
Module Frame.
Record t (num : Type) : Type := mk {
  ts : num; W : num; H : num; u1 : num; u2 : num
}.
Arguments mk {num} _ _ _ _ _.
Arguments ts {num} _.
Arguments W {num} _.
Arguments H {num} _.
Arguments u1 {num} _.
Arguments u2 {num} _.
End Frame.

Section Driver.
Context {num : Type} `{ML : MathLib num}.
Local Open Scope js_scope.

Definition initialSides : num := ofZ 6.

(** [init()], with the variable [maxNestedDepth] as it stands. *)
Definition init (w : World.t num) (W H u1 u2 : num) : World.t num :=
  let centerX := W / ofZ 2 in
  let centerY := H / ofZ 2 in
  let polyRadius := min W H * dec 38 100 in
  let worldPolygon := Polygon.new centerX centerY polyRadius initialSides (- PI / ofZ 2) in
  let bRadius := max (ofZ 24) (polyRadius * dec 12 100) in
  let ball :=
    BallSim.new centerX (centerY - polyRadius * dec 35 100) (ofZ 120) (ofZ 30)
      (BallSim.Options.mk (Some bRadius) (Some (ofZ 900)) None (Some (ofZ 0))
                          (Some (World.maxNestedDepth w)))
      u1 u2 in
  World.mk (Some worldPolygon) (Some ball) None (World.maxNestedDepth w).

(** The [input] listener of the depth slider; [value] is
    [parseInt(depthSlider.value, 10)]. *)
Definition depthInput (w : World.t num) (value : num) : World.t num :=
  let maxNestedDepth := value in
  match World.ball w with
  | Some ball =>
      let inner :=
        match BallSim.inner ball with
        | None =>
            if ofZ 0 <? maxNestedDepth then
              Some (BallSim.Inner.mk
                      (ofZ 0) (ofZ 0) (BallSim.radius ball * dec 42 100)
                      (max (ofZ 3) (ofZ 4))
                      (BallSim.InnerBall.mk
                         (- BallSim.radius ball * dec 12 100)
                         (- BallSim.radius ball * dec 14 100)
                         (ofZ 0) (ofZ 0)
                         (max (ofZ 6) (BallSim.radius ball * dec 22 100))
                         (BallSim.gravity ball * dec 11 10))
                      None)
            else None
        | Some ip => Some ip
        end in
      let ball :=
        BallSim.mk (BallSim.x ball) (BallSim.y ball) (BallSim.vx ball) (BallSim.vy ball)
                   (BallSim.radius ball) (BallSim.gravity ball) (BallSim.friction ball)
                   (ofZ 0) maxNestedDepth inner in
      World.mk (World.worldPolygon w) (Some ball) (World.lastTime w) maxNestedDepth
  | None =>
      World.mk (World.worldPolygon w) None (World.lastTime w) maxNestedDepth
  end.

Definition clamp (v a b : num) : num := max a (min b v).

(** The [pointerdown] listener of the canvas; [x] and [y] are the pointer
    position relative to the canvas ([e.clientX - rect.left] and
    [e.clientY - rect.top]).  Without a ball, reading [ball.x] throws a
    TypeError: [None]. *)
Definition pointerdown (w : World.t num) (x y : num) : option (World.t num) :=
  match World.ball w with
  | Some ball =>
      let dx := x - BallSim.x ball in
      let dy := y - BallSim.y ball in
      let ball :=
        BallSim.mk (BallSim.x ball) (BallSim.y ball)
                   (BallSim.vx ball + dx * dec 8 10) (BallSim.vy ball + dy * dec 8 10)
                   (BallSim.radius ball) (BallSim.gravity ball) (BallSim.friction ball)
                   (BallSim.nestedDepth ball) (BallSim.maxNestedDepth ball)
                   (BallSim.inner ball) in
      Some (World.mk (World.worldPolygon w) (Some ball) (World.lastTime w)
                     (World.maxNestedDepth w))
  | None => None
  end.

(** The state [ip.extra] that [handleRecursiveUpdates] creates when it is
    missing. *)
Definition newExtra (ip : BallSim.Inner.t num) (depth u1 u2 : num) : BallSim.Extra.t num :=
  BallSim.Extra.mk
    (max (ofZ 3) (ofZ 3 + depth + ofZ 1))
    (BallSim.ExtraBall.mk
       (BallSim.InnerBall.x (BallSim.Inner.ball ip) * dec 35 100)
       (BallSim.InnerBall.y (BallSim.Inner.ball ip) * dec 35 100)
       ((u1 - dec 5 10) * ofZ 30)
       ((u2 - dec 5 10) * ofZ 30)
       (max (ofZ 2) (BallSim.InnerBall.radius (BallSim.Inner.ball ip) * dec 35 100))).

(** The rest of the branch [nestedDepth + 1 < maxNestedDepth], with
    [ip.extra] in place: integrate its ball and collide it with the tiny
    polygon inside [ip.ball]. *)
Definition stepExtra (parentBall : BallSim.t num) (ip : BallSim.Inner.t num)
    (extra : BallSim.Extra.t num) (dt : num) : BallSim.Extra.t num :=
  let eb := BallSim.Extra.ball extra in
  let vy := BallSim.ExtraBall.vy eb + (BallSim.gravity parentBall * dec 18 100) * dt in
  let x := BallSim.ExtraBall.x eb + BallSim.ExtraBall.vx eb * dt in
  let y := BallSim.ExtraBall.y eb + vy * dt in
  let vx := BallSim.ExtraBall.vx eb in
  let tinyPoly :=
    Polygon.new (ofZ 0) (ofZ 0)
                (BallSim.InnerBall.radius (BallSim.Inner.ball ip) * dec 6 10)
                (BallSim.Extra.polygonSides extra) (PI / ofZ 2) in
  let (col, _) := Polygon.collideCircle tinyPoly x y (BallSim.ExtraBall.radius eb) in
  match col with
  | Some col =>
      let v := BallSim.reflect (Vec.mk vx vy) (Polygon.Collision.normal col) in
      let p := BallSim.pushOut (Vec.mk x y) (Polygon.Collision.normal col)
                               (Polygon.Collision.penetration col) (dec 2 10) in
      let v := BallSim.damp v in
      BallSim.Extra.mk
        (min (ofZ 30) (BallSim.Extra.polygonSides extra + ofZ 1))
        (BallSim.ExtraBall.mk (Vec.x p) (Vec.y p) (Vec.x v) (Vec.y v)
                              (BallSim.ExtraBall.radius eb))
  | None =>
      BallSim.Extra.mk
        (BallSim.Extra.polygonSides extra)
        (BallSim.ExtraBall.mk x y vx vy (BallSim.ExtraBall.radius eb))
  end.

(** The branch [nestedDepth + 1 < maxNestedDepth] of
    [handleRecursiveUpdates]: [ip.extra] is created if it is missing and
    then updated. *)
Definition updateExtra (parentBall : BallSim.t num) (ip : BallSim.Inner.t num)
    (dt depth u1 u2 : num) : BallSim.Inner.t num :=
  let extra :=
    match BallSim.Inner.extra ip with
    | Some extra => extra
    | None => newExtra ip depth u1 u2
    end in
  let extra := stepExtra parentBall ip extra dt in
  BallSim.Inner.mk (BallSim.Inner.cx ip) (BallSim.Inner.cy ip) (BallSim.Inner.radius ip)
                   (BallSim.Inner.polygonSides ip) (BallSim.Inner.ball ip) (Some extra).

(** [handleRecursiveUpdates(parentBall, dt, depth)] *)
Definition handleRecursiveUpdates (parentBall : BallSim.t num) (dt depth u1 u2 : num)
    : BallSim.t num :=
  match BallSim.inner parentBall with
  | None => parentBall
  | Some _ =>
      let (innerHit, parentBall) := BallSim.updateInner parentBall dt in
      if BallSim.nestedDepth parentBall + ofZ 1 <? BallSim.maxNestedDepth parentBall then
        match BallSim.inner parentBall with
        | Some ip =>
            BallSim.withInner parentBall (Some (updateExtra parentBall ip dt depth u1 u2))
        | None => parentBall
        end
      else parentBall
  end.

(** [update(dt)]; [W] and [H] are the client size of the canvas. *)
Definition update (w : World.t num) (dt W H u1 u2 : num) : World.t num :=
  match World.ball w, World.worldPolygon w with
  | Some ball, Some worldPolygon =>
      let ball := BallSim.applyGravity ball dt in
      let ball := BallSim.integrate ball dt in
      let '(collided, ball, worldPolygon) :=
        BallSim.handleCollisionWithPolygon ball worldPolygon in
      let (ball, worldPolygon) :=
        if collided : bool then
          let worldPolygon :=
            Polygon.setSides worldPolygon (ofZ (Polygon.sides worldPolygon) + ofZ 1) in
          let ball :=
            BallSim.mk (BallSim.x ball) (BallSim.y ball)
                       (BallSim.vx ball * dec 98 100) (BallSim.vy ball * dec 98 100)
                       (BallSim.radius ball) (BallSim.gravity ball) (BallSim.friction ball)
                       (BallSim.nestedDepth ball) (BallSim.maxNestedDepth ball)
                       (BallSim.inner ball) in
          let worldPolygon := Polygon.updateVertices worldPolygon in
          (ball, worldPolygon)
        else (ball, worldPolygon) in
      let ball :=
        BallSim.mk (clamp (BallSim.x ball) (ofZ 0) W) (clamp (BallSim.y ball) (ofZ 0) H)
                   (BallSim.vx ball) (BallSim.vy ball)
                   (BallSim.radius ball) (BallSim.gravity ball) (BallSim.friction ball)
                   (BallSim.nestedDepth ball) (BallSim.maxNestedDepth ball)
                   (BallSim.inner ball) in
      let ball := handleRecursiveUpdates ball dt (ofZ 0) u1 u2 in
      World.mk (Some worldPolygon) (Some ball) (World.lastTime w) (World.maxNestedDepth w)
  | _, _ => w
  end.

(** [loop(ts)] up to the drawing: the clamped timestep and one [update]. *)
Definition loop (w : World.t num) (f : Frame.t num) : World.t num :=
  let ts := Frame.ts f in
  let lastTime :=
    match World.lastTime w with
    | Some t => if truthy t then t else ts
    | None => ts
    end in
  let dt := (ts - lastTime) / ofZ 1000 in
  let w := World.mk (World.worldPolygon w) (World.ball w) (Some ts) (World.maxNestedDepth w) in
  let dt := min (dec 33 1000) dt in
  update w dt (Frame.W f) (Frame.H f) (Frame.u1 f) (Frame.u2 f).

(** A run of the animation: one [loop] per frame. *)
Definition run (w : World.t num) (frames : list (Frame.t num)) : World.t num :=
  fold_left loop frames w.
End Driver.
End App.

(** ** Evaluation on doubles *)

Definition degenerate_segment_result : Vec.t float :=
  Polygon.closestPointOnSegment (num := float) 1%float 2%float 3%float 4%float 3%float 4%float.

(** The same with the point P on the degenerate segment: P = A = B. *)
Definition degenerate_segment_at_point : Vec.t float :=
  Polygon.closestPointOnSegment (num := float) 3%float 4%float 3%float 4%float 3%float 4%float.

(** A segment with distinct endpoints, for comparison: P = (1, 2) against
    the segment from (0, 0) to (4, 0). *)
Definition proper_segment_result : Vec.t float :=
  Polygon.closestPointOnSegment (num := float) 1%float 2%float 0%float 0%float 4%float 0%float.

(** The polygon [new Polygon(5, 5, 0, 4, 0)]: with radius 0 every vertex
    is [5 + cos(ang) * 0 = 5], [5 + sin(ang) * 0 = 5], whatever finite
    values the engine gives the cosine and the sine, so all four edges
    have zero length. *)
Definition degenerate_polygon : @Polygon.t float :=
  Polygon.mk 5%float 5%float 0%float 4 0%float
    [Vec.mk 5%float 5%float; Vec.mk 5%float 5%float;
     Vec.mk 5%float 5%float; Vec.mk 5%float 5%float].

(** ** Vocabulary of the specification, over the reals *)

Definition dot (u v : Vec.t R) : R := (Vec.x u * Vec.x v + Vec.y u * Vec.y v)%R.

(** The perpendicular [(-y, x)] of a vector: the tangential direction of a
    normal. *)
Definition perp (n : Vec.t R) : Vec.t R := Vec.mk (- Vec.y n)%R (Vec.x n).

(** A vector of length 1. *)
Definition unitLength (n : Vec.t R) : Prop := (Vec.x n * Vec.x n + Vec.y n * Vec.y n = 1)%R.

(** Euclidean distance between two points. *)
Definition distance (p q : Vec.t R) : R :=
  R_sqrt.sqrt ((Vec.x p - Vec.x q) * (Vec.x p - Vec.x q) +
               (Vec.y p - Vec.y q) * (Vec.y p - Vec.y q))%R.

(** The points of the segment from [a] to [b]. *)
Definition onSegment (a b q : Vec.t R) : Prop :=
  exists s : R, (0 <= s <= 1)%R /\
    q = Vec.mk (Vec.x a + s * (Vec.x b - Vec.x a))%R (Vec.y a + s * (Vec.y b - Vec.y a))%R.

(** Edge [i] of a vertex list runs from vertex [i] to vertex
    [(i + 1) mod n]. *)
Definition edgeStart (vs : list (Vec.t R)) (i : nat) : Vec.t R := Polygon.vertex vs i.
Definition edgeEnd (vs : list (Vec.t R)) (i : nat) : Vec.t R :=
  Polygon.vertex vs ((i + 1) mod length vs).

(** The point of edge [i] that the code takes as closest to [c], and its
    distance to [c]. *)
Definition edgeClosest (vs : list (Vec.t R)) (c : Vec.t R) (i : nat) : Vec.t R :=
  Polygon.closestPointOnSegment (Vec.x c) (Vec.y c)
    (Vec.x (edgeStart vs i)) (Vec.y (edgeStart vs i))
    (Vec.x (edgeEnd vs i)) (Vec.y (edgeEnd vs i)).

Definition edgeDistance (vs : list (Vec.t R)) (c : Vec.t R) (i : nat) : R :=
  distance c (edgeClosest vs c i).

(** [d] is the minimum over all edges of the distance from [c] to the
    edge, and [i] is the first edge that attains it. *)
Definition minEdgeDistance (vs : list (Vec.t R)) (c : Vec.t R) (i : nat) (d : R) : Prop :=
  (i < length vs)%nat /\
  edgeDistance vs c i = d /\
  (forall j, (j < length vs)%nat -> d <= edgeDistance vs c j)%R /\
  (forall j, (j < i)%nat -> d < edgeDistance vs c j)%R.

(** The record the scan of [collideCircle] keeps for edge [i]. *)
Definition bestOf (vs : list (Vec.t R)) (c : Vec.t R) (i : nat) : Polygon.Best.t R :=
  Polygon.Best.mk (edgeDistance vs c i) (edgeClosest vs c i) i (edgeStart vs i) (edgeEnd vs i).

(** No edge has coinciding endpoints. *)
Definition nondegenerate (vs : list (Vec.t R)) : Prop :=
  forall i, (i < length vs)%nat -> edgeStart vs i <> edgeEnd vs i.

(** The perpendicular [(-dy, dx)] of edge [i], normalized. *)
Definition edgeNormal (vs : list (Vec.t R)) (i : nat) : Vec.t R :=
  let ex := (Vec.x (edgeEnd vs i) - Vec.x (edgeStart vs i))%R in
  let ey := (Vec.y (edgeEnd vs i) - Vec.y (edgeStart vs i))%R in
  let l := R_sqrt.sqrt (ex * ex + ey * ey) in
  Vec.mk (- ey / l)%R (ex / l)%R.

Definition vsub (p q : Vec.t R) : Vec.t R :=
  Vec.mk (Vec.x p - Vec.x q)%R (Vec.y p - Vec.y q)%R.

Definition vneg (p : Vec.t R) : Vec.t R := Vec.mk (- Vec.x p)%R (- Vec.y p)%R.

(** "n truncated": the integer part of [n], rounding toward zero. *)
Definition truncate (n : R) : Z := if Rlt_dec n 0 then Zceil n else Zfloor n.

(** Vertex [i] of the regular polygon that the parameters of [p] describe:
    [center + radius * (cos theta_i, sin theta_i)] with
    [theta_i = rotation + i * 2 pi / sideCount]. *)
Definition regularVertex (p : @Polygon.t R) (i : nat) : Vec.t R :=
  let theta := (Polygon.rotation p + INR i * (2 * Rtrigo1.PI) / IZR (Polygon.sides p))%R in
  Vec.mk (Polygon.cx p + Polygon.radius p * Rtrigo_def.cos theta)%R
         (Polygon.cy p + Polygon.radius p * Rtrigo_def.sin theta)%R.

(** The representation invariant of a polygon. *)
Definition representation (p : @Polygon.t R) : Prop :=
  (3 <= Polygon.sides p)%Z /\
  Z.of_nat (length (Polygon.vertices p)) = Polygon.sides p /\
  forall i, (i < length (Polygon.vertices p))%nat ->
            nth_error (Polygon.vertices p) i = Some (regularVertex p i).

(** The apothem of a regular polygon: the distance from its center to the
    midpoint of a side. *)
Definition apothem (p : @Polygon.t R) : R :=
  (Polygon.radius p * Rtrigo_def.cos (Rtrigo1.PI / IZR (Polygon.sides p)))%R.

(** The angle of vertex [i] and the angle between consecutive vertices. *)
Definition vertexAngle (p : @Polygon.t R) (i : nat) : R :=
  (Polygon.rotation p + INR i * (2 * Rtrigo1.PI) / IZR (Polygon.sides p))%R.

(** A point strictly inside a polygon whose vertices run counterclockwise,
    as those of [updateVertices] do: it lies strictly to the left of every
    edge. *)
Definition inside (vs : list (Vec.t R)) (c : Vec.t R) : Prop :=
  forall i, (i < length vs)%nat ->
    (0 < (Vec.x (edgeEnd vs i) - Vec.x (edgeStart vs i)) * (Vec.y c - Vec.y (edgeStart vs i))
         - (Vec.y (edgeEnd vs i) - Vec.y (edgeStart vs i)) * (Vec.x c - Vec.x (edgeStart vs i)))%R.

(** The polygons a program can hold: built by the constructor and changed
    by the setters (and by [updateVertices], which is public too). *)
Inductive constructed : @Polygon.t R -> Prop :=
| constructed_new cx cy radius sides rotation :
    constructed (Polygon.new cx cy radius sides rotation)
| constructed_setSides p n :
    constructed p -> constructed (Polygon.setSides p n)
| constructed_setRadius p r :
    constructed p -> constructed (Polygon.setRadius p r)
| constructed_setCenter p x y :
    constructed p -> constructed (Polygon.setCenter p x y)
| constructed_updateVertices p :
    constructed p -> constructed (Polygon.updateVertices p).

(** The tier-2 state of a body, if it has one. *)
Definition tier2 (b : BallSim.t R) : option (BallSim.Extra.t R) :=
  match BallSim.inner b with
  | Some ip => BallSim.Inner.extra ip
  | None => None
  end.

(** The side count of the world polygon, once there is one. *)
Definition worldSides (w : App.World.t R) : option Z :=
  option_map Polygon.sides (App.World.worldPolygon w).

(** [updateInner] called once per timestep of a list, in order. *)
Definition updateInnerMany (b : BallSim.t R) (dts : list R) : BallSim.t R :=
  fold_left (fun b dt => snd (BallSim.updateInner b dt)) dts b.

(** The side count of the inner polygon, 0 without an inner level. *)
Definition innerSides (b : BallSim.t R) : R :=
  match BallSim.inner b with
  | Some ip => BallSim.Inner.polygonSides ip
  | None => 0%R
  end.

(** ** Vocabulary of the further properties *)

(** The length of a vector, the speed of a velocity. *)
Definition norm (v : Vec.t R) : R :=
  R_sqrt.sqrt (Vec.x v * Vec.x v + Vec.y v * Vec.y v)%R.

Definition position (b : BallSim.t R) : Vec.t R := Vec.mk (BallSim.x b) (BallSim.y b).

Definition velocity (b : BallSim.t R) : Vec.t R := Vec.mk (BallSim.vx b) (BallSim.vy b).

(** The side count of the tier-2 polygon, 0 without tier-2 state. *)
Definition extraSides (b : BallSim.t R) : R :=
  match tier2 b with
  | Some e => BallSim.Extra.polygonSides e
  | None => 0%R
  end.

(** A number that is an integer between [lo] and [hi]. *)
Definition integerBetween (lo hi : Z) (s : R) : Prop :=
  exists k : Z, s = IZR k /\ (lo <= k <= hi)%Z.

(** The nested state of a body of the application: the shape [init] and
    the slider give it and the updates keep. *)
Definition nestedInvariant (b : BallSim.t R) : Prop :=
  forall ip, BallSim.inner b = Some ip ->
    BallSim.Inner.cx ip = 0%R /\ BallSim.Inner.cy ip = 0%R /\
    BallSim.Inner.radius ip = (BallSim.radius b * (42 / 100))%R /\
    integerBetween 4 20 (BallSim.Inner.polygonSides ip) /\
    BallSim.InnerBall.radius (BallSim.Inner.ball ip)
      = Rmax 6 (BallSim.radius b * (22 / 100)) /\
    forall e, BallSim.Inner.extra ip = Some e ->
      integerBetween 4 30 (BallSim.Extra.polygonSides e) /\
      BallSim.ExtraBall.radius (BallSim.Extra.ball e)
        = Rmax 2 (BallSim.InnerBall.radius (BallSim.Inner.ball ip) * (35 / 100)).

(** The invariant of the application state. *)
Definition appInvariant (w : App.World.t R) : Prop :=
  exists b p,
    App.World.ball w = Some b /\
    App.World.worldPolygon w = Some p /\
    constructed p /\ (6 <= Polygon.sides p)%Z /\
    BallSim.nestedDepth b = 0%R /\
    BallSim.maxNestedDepth b = App.World.maxNestedDepth w /\
    (24 <= BallSim.radius b)%R /\
    (0 < BallSim.maxNestedDepth b -> BallSim.inner b <> None)%R /\
    nestedInvariant b.

(** The states of the application: after [init] (at start and on reset),
    after an animation frame, after a change of the depth slider and after
    a click on the canvas. *)
Inductive reachable : App.World.t R -> Prop :=
| reachable_init w W H u1 u2 :
    reachable (App.init w W H u1 u2)
| reachable_loop w f :
    reachable w -> reachable (App.loop w f)
| reachable_depthInput w value :
    reachable w -> reachable (App.depthInput w value)
| reachable_pointerdown w x y w' :
    reachable w -> App.pointerdown w x y = Some w' -> reachable w'.

(** * Properties *)

(** ** The degenerate segment, on doubles *)

(** C1 (evaluation of the code at the failing input).  For the point
    P = (1, 2) and the segment with both endpoints at A = (3, 4), the code
    divides [c1 = 0] by [c2 = 0]; the quotient is NaN, neither clamp
    applies to it ([NaN < 0] and [NaN > 1] are false) and both coordinates
    of the result are NaN instead of (3, 4).  The same happens with P on
    the degenerate segment itself, while a segment with distinct endpoints
    yields the projection (1, 0). *)
Theorem closestPointOnSegment_degenerate_nan :
  (PrimFloat.is_nan (Vec.x degenerate_segment_result) = true /\
   PrimFloat.is_nan (Vec.y degenerate_segment_result) = true /\
   PrimFloat.eqb (Vec.x degenerate_segment_result) 3%float = false /\
   PrimFloat.eqb (Vec.y degenerate_segment_result) 4%float = false) /\
  (PrimFloat.is_nan (Vec.x degenerate_segment_at_point) = true /\
   PrimFloat.is_nan (Vec.y degenerate_segment_at_point) = true) /\
  proper_segment_result = Vec.mk 1%float 0%float.
Proof. vm_compute. repeat split; reflexivity. Qed.

(** ** Frame properties, for every interpretation of the numbers *)

Section Frame.
Context {num : Type} `{ML : MathLib num}.

Lemma collideCircle_snd (p : Polygon.t) (cx cy r : num) :
  snd (Polygon.collideCircle p cx cy r) = p.
Proof.
  unfold Polygon.collideCircle.
  destruct (fold_left _ _ _) as [best|]; [|reflexivity].
  destruct (leb _ _); reflexivity.
Qed.

Lemma handleCollisionWithPolygon_snd (ball : BallSim.t num) (p : Polygon.t) :
  snd (BallSim.handleCollisionWithPolygon ball p) = p.
Proof.
  unfold BallSim.handleCollisionWithPolygon.
  pose proof (collideCircle_snd p (BallSim.x ball) (BallSim.y ball) (BallSim.radius ball)) as E.
  destruct (Polygon.collideCircle _ _ _ _) as [[col|] p']; simpl in E; subst p'; reflexivity.
Qed.

(** C10.  A collision query returns its receiver as it found it: the
    polygon after [collideCircle] is the polygon before it, so its
    center, radius, side count, rotation and vertex list are unchanged;
    the same holds through [handleCollisionWithPolygon], which leaves
    growing the polygon to its caller.  ([closestPointOnSegment] is a
    static function of six numbers and has no polygon to change.) *)
Theorem collideCircle_leaves_polygon_unchanged (p : Polygon.t) (cx cy r : num)
    (ball : BallSim.t num) :
  let p' := snd (Polygon.collideCircle p cx cy r) in
  (p' = p /\
   Polygon.cx p' = Polygon.cx p /\ Polygon.cy p' = Polygon.cy p /\
   Polygon.radius p' = Polygon.radius p /\ Polygon.sides p' = Polygon.sides p /\
   Polygon.rotation p' = Polygon.rotation p /\
   Polygon.vertices p' = Polygon.vertices p) /\
  snd (BallSim.handleCollisionWithPolygon ball p) = p.
Proof.
  cbv zeta. rewrite collideCircle_snd, handleCollisionWithPolygon_snd.
  repeat split; reflexivity.
Qed.
End Frame.

(** ** The kernel at the reals *)

Local Open Scope R_scope.

Ltac js_R :=
  cbn [ofZ add sub mul div neg ltb leb R_arith
       PI cos sin sqrt hypot pow max min floor truthy ltInfinity R_math] in *.

Lemma Rltb_true (a b : R) : a < b -> Rltb a b = true.
Proof. intros H. unfold Rltb. destruct (Rlt_dec a b); [reflexivity | contradiction]. Qed.

Lemma Rltb_false (a b : R) : b <= a -> Rltb a b = false.
Proof. intros H. unfold Rltb. destruct (Rlt_dec a b); [lra | reflexivity]. Qed.

Lemma Rltb_spec (a b : R) : Rltb a b = true <-> a < b.
Proof. unfold Rltb. destruct (Rlt_dec a b); split; intros; try easy. Qed.

Lemma Rleb_true (a b : R) : a <= b -> Rleb a b = true.
Proof. intros H. unfold Rleb. destruct (Rle_dec a b); [reflexivity | contradiction]. Qed.

Lemma Rleb_false (a b : R) : b < a -> Rleb a b = false.
Proof. intros H. unfold Rleb. destruct (Rle_dec a b); [lra | reflexivity]. Qed.

Lemma Rtruthy_true (a : R) : a <> 0 -> Rtruthy a = true.
Proof. intros H. unfold Rtruthy. destruct (Req_dec_T a 0); [contradiction | reflexivity]. Qed.

Lemma Rtruthy_orElse (a : R) : (if Rtruthy a then a else 0) = a.
Proof. unfold Rtruthy. destruct (Req_dec_T a 0); [symmetry; assumption | reflexivity]. Qed.

(** ** Reflection *)

Section Reflection.
Implicit Types v n : Vec.t R.

Lemma reflect_normal v n :
  unitLength n -> dot (BallSim.reflect v n) n = - dot v n.
Proof.
  unfold unitLength, dot, BallSim.reflect. destruct v as [vx vy], n as [nx ny].
  js_R. cbn [Vec.x Vec.y]. intros U.
  replace ((vx - 2 * (vx * nx + vy * ny) * nx) * nx + (vy - 2 * (vx * nx + vy * ny) * ny) * ny)
    with ((vx * nx + vy * ny) * (1 - 2 * (nx * nx + ny * ny))) by ring.
  rewrite U. ring.
Qed.

Lemma reflect_tangent v n :
  dot (BallSim.reflect v n) (perp n) = dot v (perp n).
Proof.
  unfold dot, perp, BallSim.reflect. destruct v as [vx vy], n as [nx ny].
  js_R. cbn [Vec.x Vec.y]. ring.
Qed.

(** C3.  With a unit normal [n], the velocity [v'] that the reflection
    step computes from [v] has normal component [v' . n = -(v . n)] and
    the tangential component of [v] (its product with the perpendicular
    of [n]); and whenever [collideCircle] reports a hit with that normal,
    the velocity [handleCollisionWithPolygon] leaves in the ball is this
    [v'] scaled by 0.98, so [v'] is the velocity between the reflection
    and the damping. *)
Theorem reflection_law v n :
  unitLength n ->
  let v' := BallSim.reflect v n in
  dot v' n = - dot v n /\
  dot v' (perp n) = dot v (perp n) /\
  forall (ball : BallSim.t R) (polygon : Polygon.t) col,
    fst (Polygon.collideCircle polygon (BallSim.x ball) (BallSim.y ball) (BallSim.radius ball))
      = Some col ->
    Polygon.Collision.normal col = n ->
    Vec.mk (BallSim.vx ball) (BallSim.vy ball) = v ->
    let ball' := snd (fst (BallSim.handleCollisionWithPolygon ball polygon)) in
    fst (fst (BallSim.handleCollisionWithPolygon ball polygon)) = true /\
    Vec.mk (BallSim.vx ball') (BallSim.vy ball') = BallSim.damp v' /\
    BallSim.vx ball' = Vec.x v' * (98 / 100) /\
    BallSim.vy ball' = Vec.y v' * (98 / 100).
Proof.
  intros U v'. split; [apply reflect_normal; exact U|].
  split; [apply reflect_tangent|].
  intros ball polygon col Hcol Hn Hv ball'. subst ball'.
  unfold BallSim.handleCollisionWithPolygon.
  destruct (Polygon.collideCircle _ _ _ _) as [c p'].
  cbn [fst] in Hcol. subst c. cbn [fst snd BallSim.vx BallSim.vy].
  rewrite Hn, Hv. fold v'. destruct (BallSim.damp v') as [dx dy] eqn:E.
  unfold BallSim.damp in E. injection E as <- <-. js_R. unfold dec. js_R.
  repeat split; reflexivity.
Qed.

Lemma reflection_law_witness :
  unitLength (Vec.mk 0 1) /\
  dot (BallSim.reflect (Vec.mk 3 4) (Vec.mk 0 1)) (Vec.mk 0 1) = - dot (Vec.mk 3 4) (Vec.mk 0 1).
Proof.
  assert (U : unitLength (Vec.mk 0 1)) by (unfold unitLength; cbn [Vec.x Vec.y]; lra).
  split; [exact U|].
  exact (proj1 (reflection_law (Vec.mk 3 4) (Vec.mk 0 1) U)).
Defined.
End Reflection.

(** ** Construction of the nested level *)

Section Construction.
Import BallSim.

Lemma random_velocity_bound (u k : R) :
  0 <= u < 1 -> 0 <= k -> - (k / 2) <= (u - 5 / 10) * k <= k / 2.
Proof. intros Hu Hk. split; nra. Qed.

(** C4.  A body constructed with nested depth [d] and maximum depth [m]
    has an inner level exactly when [d < m]; with [m = 0] (and a depth
    that is not negative) it has none.  The inner level, when built, has
    radius 0.42 times the radius of the body, side count
    [max(3, 4 + d)], no tier-2 state yet, and a ball at
    (-0.12, -0.14) times the radius of the body, with each velocity
    component in [-20, 20], radius [max(6, 0.22 * radius)] and gravity
    1.1 times the gravity of the body.  [u1], [u2] are the results of
    [Math.random()], which lie in [0, 1). *)
Theorem constructor_inner_level (x y vx vy : R) (o : Options.t R) (d m u1 u2 : R) :
  Options.nestedDepth o = Some d ->
  Options.maxNestedDepth o = Some m ->
  0 <= u1 < 1 ->
  0 <= u2 < 1 ->
  let body := new x y vx vy o u1 u2 in
  nestedDepth body = d /\
  maxNestedDepth body = m /\
  (inner body <> None <-> d < m) /\
  (0 <= d -> m = 0 -> inner body = None) /\
  forall ip, inner body = Some ip ->
    Inner.cx ip = 0 /\ Inner.cy ip = 0 /\
    Inner.radius ip = radius body * (42 / 100) /\
    Inner.polygonSides ip = Rmax 3 (4 + d) /\
    Inner.extra ip = None /\
    InnerBall.x (Inner.ball ip) = - (12 / 100) * radius body /\
    InnerBall.y (Inner.ball ip) = - (14 / 100) * radius body /\
    -20 <= InnerBall.vx (Inner.ball ip) <= 20 /\
    -20 <= InnerBall.vy (Inner.ball ip) <= 20 /\
    InnerBall.radius (Inner.ball ip) = Rmax 6 (radius body * (22 / 100)) /\
    InnerBall.gravity (Inner.ball ip) = gravity body * (11 / 10).
Proof.
  intros Hd Hm Hu1 Hu2 body. subst body. unfold new.
  rewrite Hd, Hm. cbn [orElse nullish]. js_R. unfold dec. js_R.
  rewrite (Rtruthy_orElse d).
  cbn [nestedDepth maxNestedDepth inner radius gravity].
  split; [reflexivity|]. split; [reflexivity|].
  split.
  { unfold Rltb. destruct (Rlt_dec d m); split; intros; try easy. }
  split.
  { intros H0 ->. rewrite Rltb_false by lra. reflexivity. }
  intros ip. unfold Rltb. destruct (Rlt_dec d m); [|discriminate].
  intros [= <-]. cbn [Inner.cx Inner.cy Inner.radius Inner.polygonSides Inner.extra Inner.ball
                      InnerBall.x InnerBall.y InnerBall.vx InnerBall.vy InnerBall.radius
                      InnerBall.gravity].
  pose proof (random_velocity_bound u1 40 Hu1 ltac:(lra)) as B1.
  pose proof (random_velocity_bound u2 40 Hu2 ltac:(lra)) as B2.
  repeat split; try reflexivity; try lra.
Qed.

Lemma constructor_inner_level_witness :
  let body := new 0 0 0 0 (Options.mk (Some 30) None None (Some 0) (Some 1)) (1 / 4) (3 / 4) in
  inner body <> None <-> 0 < 1.
Proof.
  refine (proj1 (proj2 (proj2
    (@constructor_inner_level 0 0 0 0 (Options.mk (Some 30) None None (Some 0) (Some 1))
       0 1 (1 / 4) (3 / 4) eq_refl eq_refl _ _)))); lra.
Defined.
End Construction.

(** ** The representation of a polygon *)

Section Representation.

Lemma max3_floor_truncate (n : R) : Z.max 3 (Zfloor n) = Z.max 3 (truncate n).
Proof.
  unfold truncate. destruct (Rlt_dec n 0) as [Hneg|]; [|reflexivity].
  pose proof (Zfloor_bound n) as [Hf _]. pose proof (Zceil_bound n) as [_ Hc].
  assert (Zfloor n <= 0)%Z by (apply le_IZR; lra).
  assert (Zceil n <= 0)%Z.
  { apply Z.lt_succ_r, lt_IZR. rewrite succ_IZR.
    pose proof (Zceil_bound n) as [Hc' _]. lra. }
  lia.
Qed.

Lemma updateVertices_representation (q : Polygon.t) :
  (3 <= Polygon.sides q)%Z -> representation (Polygon.updateVertices q).
Proof.
  intros H3. unfold representation, Polygon.updateVertices.
  cbn [Polygon.sides Polygon.vertices].
  rewrite length_map, length_seq.
  split; [exact H3|]. split; [lia|].
  intros i Hi.
  rewrite nth_error_map, nth_error_seq.
  destruct (Nat.ltb_spec i (Z.to_nat (Polygon.sides q))) as [_|Hge]; [|lia].
  cbn [option_map Nat.add]. f_equal. unfold regularVertex.
  cbn [Polygon.cx Polygon.cy Polygon.radius Polygon.rotation Polygon.sides]. js_R.
  rewrite INR_IZR_INZ.
  assert (IZR (Polygon.sides q) <> 0) by (apply not_0_IZR; lia).
  replace (Polygon.rotation q + IZR (Z.of_nat i) / IZR (Polygon.sides q) * (Rtrigo1.PI * 2))
    with (Polygon.rotation q + IZR (Z.of_nat i) * (2 * Rtrigo1.PI) / IZR (Polygon.sides q))
    by (field; assumption).
  f_equal; ring.
Qed.

Lemma constructed_sides (p : Polygon.t) : constructed p -> (3 <= Polygon.sides p)%Z.
Proof.
  induction 1; cbn [Polygon.new Polygon.setSides Polygon.setRadius Polygon.setCenter
                    Polygon.updateVertices Polygon.sides]; js_R; lia.
Qed.

Lemma constructed_representation (p : Polygon.t) : constructed p -> representation p.
Proof.
  intros C. pose proof (constructed_sides p C) as H3.
  destruct C; apply updateVertices_representation; cbn [Polygon.sides]; js_R;
    try lia; try (apply constructed_sides; assumption).
Qed.

(** C7.  Every polygon obtained from the constructor by any sequence of
    [setSides], [setRadius], [setCenter] (and [updateVertices]) calls
    satisfies the representation invariant: its side count is an integer
    at least 3, its vertex list has exactly that many entries, and entry
    [i] is [center + radius * (cos theta_i, sin theta_i)] for the current
    parameters.  The constructor and [setSides(n)] store
    [max(3, n truncated)] and change no other parameter; [setRadius] and
    [setCenter] store their arguments. *)
Theorem polygon_representation (p : Polygon.t) :
  constructed p ->
  representation p /\
  (forall n, let q := Polygon.setSides p n in
     representation q /\ Polygon.sides q = Z.max 3 (truncate n) /\
     Polygon.cx q = Polygon.cx p /\ Polygon.cy q = Polygon.cy p /\
     Polygon.radius q = Polygon.radius p /\ Polygon.rotation q = Polygon.rotation p) /\
  (forall r, let q := Polygon.setRadius p r in
     representation q /\ Polygon.radius q = r /\ Polygon.sides q = Polygon.sides p) /\
  (forall x y, let q := Polygon.setCenter p x y in
     representation q /\ Polygon.cx q = x /\ Polygon.cy q = y /\
     Polygon.sides q = Polygon.sides p) /\
  (forall cx cy radius sides rotation,
     let q := Polygon.new cx cy radius sides rotation in
     representation q /\ Polygon.sides q = Z.max 3 (truncate sides)).
Proof.
  intros C. split; [apply constructed_representation; exact C|].
  split; [|split; [|split]].
  - intros n q. split; [apply constructed_representation; constructor; exact C|].
    subst q. cbn [Polygon.setSides Polygon.updateVertices Polygon.sides Polygon.cx Polygon.cy
                  Polygon.radius Polygon.rotation]. js_R.
    rewrite max3_floor_truncate. repeat split; reflexivity.
  - intros r q. split; [apply constructed_representation; constructor; exact C|].
    split; reflexivity.
  - intros x y q. split; [apply constructed_representation; constructor; exact C|].
    repeat split; reflexivity.
  - intros cx cy radius sides rotation q.
    split; [apply constructed_representation; constructor|].
    subst q. cbn [Polygon.new Polygon.updateVertices Polygon.sides]. js_R.
    apply max3_floor_truncate.
Qed.

Lemma polygon_representation_witness :
  representation (Polygon.new (num := R) 0 0 100 6 0).
Proof.
  exact (proj1 (polygon_representation _ (constructed_new 0 0 100 6 0))).
Defined.
End Representation.

(** ** The inner level *)

Section InnerLevel.
Import BallSim.

(** What [updateInner] keeps and what it changes. *)
Lemma updateInner_shape (b : BallSim.t R) (dt : R) :
  let r := updateInner b dt in
  nestedDepth (snd r) = nestedDepth b /\
  maxNestedDepth (snd r) = maxNestedDepth b /\
  gravity (snd r) = gravity b /\
  match inner b with
  | None => r = (false, b)
  | Some ip =>
      exists ip', inner (snd r) = Some ip' /\
        Inner.extra ip' = Inner.extra ip /\
        InnerBall.radius (Inner.ball ip') = InnerBall.radius (Inner.ball ip) /\
        Inner.polygonSides ip' =
          (if fst r then Rmin 20 (Inner.polygonSides ip + 1) else Inner.polygonSides ip)
  end.
Proof.
  unfold updateInner. destruct (inner b) as [ip|] eqn:E; cbn zeta.
  - destruct (Polygon.collideCircle _ _ _ _) as [[col|] q]; cbn [fst snd withInner
      nestedDepth maxNestedDepth gravity inner]; repeat split; eexists; repeat split.
  - repeat split.
Qed.

Lemma updateInner_sides (b : BallSim.t R) (dt : R) :
  innerSides (snd (updateInner b dt)) =
    match inner b with
    | Some _ => if fst (updateInner b dt) then Rmin 20 (innerSides b + 1) else innerSides b
    | None => 0
    end.
Proof.
  pose proof (updateInner_shape b dt) as (_ & _ & _ & H). cbv zeta in H.
  unfold innerSides. destruct (inner b) as [ip|] eqn:E.
  - destruct H as (ip' & -> & _ & _ & ->). reflexivity.
  - rewrite H. cbn [snd]. rewrite E. reflexivity.
Qed.
End InnerLevel.

(** ** The driver *)

Section DriverProperties.
Import BallSim App.

Lemma handleCollisionWithPolygon_shape (b : BallSim.t R) (p : Polygon.t) :
  let b' := snd (fst (handleCollisionWithPolygon b p)) in
  nestedDepth b' = nestedDepth b /\
  maxNestedDepth b' = maxNestedDepth b /\
  inner b' = inner b.
Proof.
  unfold handleCollisionWithPolygon.
  destruct (Polygon.collideCircle _ _ _ _) as [[col|] q]; repeat split.
Qed.

(** [handleRecursiveUpdates] in terms of its two halves. *)
Lemma handleRecursiveUpdates_unfold (b : BallSim.t R) (dt depth u1 u2 : R) :
  let b1 := snd (updateInner b dt) in
  handleRecursiveUpdates b dt depth u1 u2 =
    match inner b with
    | None => b
    | Some _ =>
        if Rltb (nestedDepth b + 1) (maxNestedDepth b) then
          match inner b1 with
          | Some ip => withInner b1 (Some (updateExtra b1 ip dt depth u1 u2))
          | None => b1
          end
        else b1
    end.
Proof.
  cbv zeta. unfold handleRecursiveUpdates.
  destruct (inner b) as [ip|]; [|reflexivity].
  pose proof (updateInner_shape b dt) as (Hd & Hm & _). cbv zeta in Hd, Hm.
  destruct (updateInner b dt) as [hit b1]. cbn [snd] in *. js_R.
  rewrite Hd, Hm. reflexivity.
Qed.

Lemma handleRecursiveUpdates_depths (b : BallSim.t R) (dt depth u1 u2 : R) :
  let b' := handleRecursiveUpdates b dt depth u1 u2 in
  nestedDepth b' = nestedDepth b /\ maxNestedDepth b' = maxNestedDepth b.
Proof.
  cbv zeta. rewrite handleRecursiveUpdates_unfold.
  pose proof (updateInner_shape b dt) as (Hd & Hm & _). cbv zeta in Hd, Hm.
  destruct (inner b); [|split; reflexivity].
  destruct (Rltb _ _); [|split; assumption].
  destruct (inner (snd (updateInner b dt))); split; assumption.
Qed.

(** Without the gate the tier-2 state stays absent. *)
Lemma handleRecursiveUpdates_closed_gate (b : BallSim.t R) (dt depth u1 u2 : R) :
  tier2 b = None ->
  maxNestedDepth b <= nestedDepth b + 1 ->
  tier2 (handleRecursiveUpdates b dt depth u1 u2) = None.
Proof.
  intros Ht Hg. rewrite handleRecursiveUpdates_unfold. unfold tier2 in *.
  pose proof (updateInner_shape b dt) as (_ & _ & _ & H). cbv zeta in H.
  destruct (inner b) as [ip|] eqn:E; [|rewrite E; reflexivity].
  rewrite Rltb_false by exact Hg.
  destruct H as (ip' & -> & -> & _). exact Ht.
Qed.

Lemma handleRecursiveUpdates_inner (b : BallSim.t R) (dt depth u1 u2 : R) :
  inner b <> None -> inner (handleRecursiveUpdates b dt depth u1 u2) <> None.
Proof.
  intros Hi. rewrite handleRecursiveUpdates_unfold.
  pose proof (updateInner_shape b dt) as (_ & _ & _ & H). cbv zeta in H.
  destruct (inner b) as [ip|]; [|contradiction Hi; reflexivity].
  destruct H as (ip' & E & _). rewrite E.
  destruct (Rltb _ _); [cbn [withInner inner]; discriminate | rewrite E; discriminate].
Qed.

Lemma update_ball (w : World.t R) (b : BallSim.t R) (p : Polygon.t) (dt W H u1 u2 : R) :
  World.ball w = Some b ->
  World.worldPolygon w = Some p ->
  exists b' p',
    World.ball (update w dt W H u1 u2) = Some b' /\
    World.worldPolygon (update w dt W H u1 u2) = Some p' /\
    nestedDepth b' = nestedDepth b /\
    maxNestedDepth b' = maxNestedDepth b /\
    (tier2 b = None -> maxNestedDepth b <= nestedDepth b + 1 -> tier2 b' = None) /\
    (inner b <> None -> inner b' <> None) /\
    Polygon.sides p' =
      if fst (fst (handleCollisionWithPolygon (integrate (applyGravity b dt) dt) p))
      then Z.max 3 (Zfloor (IZR (Polygon.sides p) + 1))
      else Polygon.sides p.
Proof.
  intros Hb Hp. unfold update. rewrite Hb, Hp.
  pose proof (handleCollisionWithPolygon_shape (integrate (applyGravity b dt) dt) p)
    as (Hd & Hm & Hi).
  pose proof (handleCollisionWithPolygon_snd (integrate (applyGravity b dt) dt) p) as Hs.
  cbv zeta in Hd, Hm, Hi.
  destruct (handleCollisionWithPolygon _ _) as [[collided b1] p1].
  cbn [fst snd] in *. subst p1.
  cbn [integrate applyGravity nestedDepth maxNestedDepth inner] in Hd, Hm, Hi.
  destruct collided;
    cbn [World.ball World.worldPolygon x y vx vy radius gravity friction nestedDepth
         maxNestedDepth inner];
    match goal with
    | |- context [handleRecursiveUpdates ?b0 dt (ofZ 0) u1 u2] =>
        pose proof (handleRecursiveUpdates_depths b0 dt (ofZ 0) u1 u2) as (Rd & Rm);
        cbv zeta in Rd, Rm; cbn [nestedDepth maxNestedDepth] in Rd, Rm;
        eexists; eexists; (split; [reflexivity|]); (split; [reflexivity|]);
        (split; [congruence|]); (split; [congruence|]);
        (split; [|split; [|reflexivity]]);
        [ intros Ht Hg; apply handleRecursiveUpdates_closed_gate;
          [ unfold tier2 in *; cbn [inner]; rewrite Hi; exact Ht
          | cbn [nestedDepth maxNestedDepth]; rewrite Hd, Hm; exact Hg ]
        | intros Hn; apply handleRecursiveUpdates_inner; cbn [inner]; rewrite Hi; exact Hn ]
    end.
Qed.

Lemma floor_succ (z : Z) : (3 <= z)%Z -> Z.max 3 (Zfloor (IZR z + 1)) = (z + 1)%Z.
Proof.
  intros H. rewrite <- plus_IZR, ZfloorZ. lia.
Qed.

Lemma loop_update (w : World.t R) (f : Frame.t R) :
  exists dt w0,
    loop w f = update w0 dt (Frame.W f) (Frame.H f) (Frame.u1 f) (Frame.u2 f) /\
    World.ball w0 = World.ball w /\ World.worldPolygon w0 = World.worldPolygon w /\
    World.maxNestedDepth w0 = World.maxNestedDepth w.
Proof.
  unfold loop. eexists; eexists. split; [reflexivity|]. repeat split.
Qed.

Lemma loop_running (w : World.t R) (f : Frame.t R) (b : BallSim.t R) (p : Polygon.t) :
  World.ball w = Some b ->
  World.worldPolygon w = Some p ->
  (3 <= Polygon.sides p)%Z ->
  exists b' p',
    World.ball (loop w f) = Some b' /\
    World.worldPolygon (loop w f) = Some p' /\
    nestedDepth b' = nestedDepth b /\
    maxNestedDepth b' = maxNestedDepth b /\
    (tier2 b = None -> maxNestedDepth b <= nestedDepth b + 1 -> tier2 b' = None) /\
    (inner b <> None -> inner b' <> None) /\
    (Polygon.sides p <= Polygon.sides p')%Z /\ (3 <= Polygon.sides p')%Z.
Proof.
  intros Hb Hp H3.
  destruct (loop_update w f) as (dt & w0 & -> & Hb0 & Hp0 & _).
  rewrite <- Hb0 in Hb. rewrite <- Hp0 in Hp.
  destruct (update_ball w0 b p dt (Frame.W f) (Frame.H f) (Frame.u1 f) (Frame.u2 f) Hb Hp)
    as (b' & p' & E1 & E2 & Hd & Hm & Ht & Hn & Hs).
  exists b', p'. repeat (split; [assumption|]).
  rewrite Hs. destruct (fst (fst _)); [rewrite floor_succ by exact H3|]; lia.
Qed.

Lemma run_running (frames : list (Frame.t R)) (w : World.t R) (b : BallSim.t R)
    (p : Polygon.t) :
  World.ball w = Some b ->
  World.worldPolygon w = Some p ->
  (3 <= Polygon.sides p)%Z ->
  exists b' p',
    World.ball (run w frames) = Some b' /\
    World.worldPolygon (run w frames) = Some p' /\
    nestedDepth b' = nestedDepth b /\
    maxNestedDepth b' = maxNestedDepth b /\
    (tier2 b = None -> maxNestedDepth b <= nestedDepth b + 1 -> tier2 b' = None) /\
    (inner b <> None -> inner b' <> None) /\
    (Polygon.sides p <= Polygon.sides p')%Z /\ (3 <= Polygon.sides p')%Z.
Proof.
  revert w b p. induction frames as [|f frames IH]; intros w b p Hb Hp H3.
  - exists b, p. cbn [run fold_left]. repeat split; auto; lia.
  - destruct (loop_running w f b p Hb Hp H3) as (b1 & p1 & Hb1 & Hp1 & Hd1 & Hm1 & Ht1 & Hn1 & Hs1 & H31).
    destruct (IH (loop w f) b1 p1 Hb1 Hp1 H31)
      as (b2 & p2 & Hb2 & Hp2 & Hd2 & Hm2 & Ht2 & Hn2 & Hs2 & H32).
    exists b2, p2. cbn [run fold_left]. unfold run in Hb2, Hp2.
    repeat split; try assumption; try congruence; try lia.
    + intros Ht Hg. apply Ht2; [apply Ht1; assumption|]. rewrite Hd1, Hm1. exact Hg.
    + intros Hn. apply Hn2, Hn1, Hn.
Qed.

(** C8.  In a running world, one [update] leaves a world polygon whose
    side count is the previous one plus exactly 1 when
    [handleCollisionWithPolygon] (called on the ball after gravity and
    integration) returned true, whatever the count was, and the previous
    one otherwise; over the frames of a run the count never decreases. *)
Theorem world_polygon_growth (w : World.t R) (b : BallSim.t R) (p : Polygon.t)
    (dt W H u1 u2 : R) :
  World.ball w = Some b ->
  World.worldPolygon w = Some p ->
  (3 <= Polygon.sides p)%Z ->
  let collided :=
    fst (fst (handleCollisionWithPolygon (integrate (applyGravity b dt) dt) p)) in
  (exists p',
     World.worldPolygon (update w dt W H u1 u2) = Some p' /\
     Polygon.sides p' = (if collided then Polygon.sides p + 1 else Polygon.sides p)%Z) /\
  (forall frames1 frames2, exists p1 p2,
     World.worldPolygon (run w frames1) = Some p1 /\
     World.worldPolygon (run w (frames1 ++ frames2)) = Some p2 /\
     (Polygon.sides p <= Polygon.sides p1 <= Polygon.sides p2)%Z).
Proof.
  intros Hb Hp H3 collided. split.
  - destruct (update_ball w b p dt W H u1 u2 Hb Hp) as (b' & p' & _ & E & _ & _ & _ & _ & Hs).
    exists p'. split; [exact E|]. rewrite Hs. subst collided.
    destruct (fst (fst _)); [apply floor_succ; exact H3 | reflexivity].
  - intros frames1 frames2.
    destruct (run_running frames1 w b p Hb Hp H3) as (b1 & p1 & Hb1 & Hp1 & _ & _ & _ & _ & Hs1 & H31).
    destruct (run_running frames2 (run w frames1) b1 p1 Hb1 Hp1 H31)
      as (b2 & p2 & _ & Hp2 & _ & _ & _ & _ & Hs2 & _).
    exists p1, p2. unfold run in *. rewrite fold_left_app. repeat split; assumption.
Qed.

Lemma init_ball (w : World.t R) (W H u1 u2 : R) :
  exists b p,
    World.ball (init w W H u1 u2) = Some b /\
    World.worldPolygon (init w W H u1 u2) = Some p /\
    nestedDepth b = 0 /\ maxNestedDepth b = World.maxNestedDepth w /\
    tier2 b = None /\ (0 < World.maxNestedDepth w -> inner b <> None) /\
    Polygon.sides p = 6%Z.
Proof.
  unfold init. cbn [World.ball World.worldPolygon]. eexists; eexists.
  split; [reflexivity|]. split; [reflexivity|].
  unfold new, tier2. cbn [nestedDepth maxNestedDepth inner orElse nullish
                          Options.nestedDepth Options.maxNestedDepth].
  js_R. rewrite (Rtruthy_orElse 0).
  split; [reflexivity|]. split; [reflexivity|].
  split; [destruct (Rltb _ _); reflexivity|].
  split; [intros Hpos; rewrite Rltb_true by exact Hpos; discriminate|].
  unfold Polygon.new, initialSides. cbn [Polygon.updateVertices Polygon.sides]. js_R.
  rewrite ZfloorZ. reflexivity.
Qed.

(** C5.  In one call of [handleRecursiveUpdates] on a body without tier-2
    state, the state exists afterwards exactly when the body has an inner
    level and its nested depth plus 1 is below its maximum depth.  When it
    is created, from the tier-1 state [ip] that [updateInner] left, it is
    the state [newExtra] with side count [max(3, 3 + depth + 1)], ball at
    0.35 times the position of the tier-1 ball, velocity components in
    [-15, 15] and radius [max(2, 0.35 * tier-1 ball radius)], advanced by
    the rest of the same call.  In a world initialised with maximum depth
    1 no run of any length creates it. *)
Theorem tier2_gating (b : BallSim.t R) (dt depth u1 u2 : R) :
  0 <= u1 < 1 ->
  0 <= u2 < 1 ->
  tier2 b = None ->
  let b1 := snd (updateInner b dt) in
  let b' := handleRecursiveUpdates b dt depth u1 u2 in
  (tier2 b' <> None <-> inner b <> None /\ nestedDepth b + 1 < maxNestedDepth b) /\
  (forall ip, inner b1 = Some ip -> nestedDepth b + 1 < maxNestedDepth b ->
     let e := newExtra ip depth u1 u2 in
     tier2 b' = Some (stepExtra b1 ip e dt) /\
     Extra.polygonSides e = Rmax 3 (3 + depth + 1) /\
     ExtraBall.x (Extra.ball e) = InnerBall.x (Inner.ball ip) * (35 / 100) /\
     ExtraBall.y (Extra.ball e) = InnerBall.y (Inner.ball ip) * (35 / 100) /\
     -15 <= ExtraBall.vx (Extra.ball e) <= 15 /\
     -15 <= ExtraBall.vy (Extra.ball e) <= 15 /\
     ExtraBall.radius (Extra.ball e) = Rmax 2 (InnerBall.radius (Inner.ball ip) * (35 / 100))) /\
  (forall wp wb lt W H v1 v2 frames ball,
     World.ball (run (init (World.mk wp wb lt 1) W H v1 v2) frames) = Some ball ->
     inner ball <> None /\ tier2 ball = None).
Proof.
  intros Hu1 Hu2 Ht b1 b'. subst b1 b'.
  rewrite handleRecursiveUpdates_unfold.
  pose proof (updateInner_shape b dt) as (_ & _ & _ & Hsh). cbv zeta in Hsh.
  split; [|split].
  - unfold tier2 in *. destruct (inner b) as [ip|] eqn:E.
    + destruct Hsh as (ip' & E' & Hx & _). rewrite E'.
      unfold Rltb. destruct (Rlt_dec _ _) as [Hg|Hg].
      * cbn [withInner inner updateExtra Inner.extra]. split; [intros _|intros _; discriminate].
        split; [discriminate | exact Hg].
      * rewrite E', Hx, Ht. split; [intros C; contradiction C; reflexivity|].
        intros [_ C]. contradiction.
    + rewrite E. split; [intros C; contradiction C; reflexivity|].
      intros [C _]. contradiction C; reflexivity.
  - intros ip Hip Hg e. unfold tier2 in *.
    destruct (inner b) as [ip0|] eqn:E.
    + destruct Hsh as (ip' & E' & Hx & _). rewrite E' in Hip. injection Hip as ->.
      rewrite Rltb_true by exact Hg. rewrite E'.
      cbn [withInner inner updateExtra Inner.extra]. rewrite Hx, Ht.
      split; [reflexivity|]. subst e. unfold newExtra.
      cbn [Extra.polygonSides Extra.ball ExtraBall.x ExtraBall.y ExtraBall.vx ExtraBall.vy
           ExtraBall.radius]. js_R. unfold dec. js_R.
      pose proof (random_velocity_bound u1 30 Hu1 ltac:(lra)) as B1.
      pose proof (random_velocity_bound u2 30 Hu2 ltac:(lra)) as B2.
      repeat split; try reflexivity; lra.
    + rewrite Hsh in Hip. cbn [snd] in Hip. congruence.
  - intros wp wb lt W H v1 v2 frames ball Hball.
    destruct (init_ball (World.mk wp wb lt 1) W H v1 v2)
      as (b0 & p0 & Hb0 & Hp0 & Hd0 & Hm0 & Ht0 & Hn0 & Hs0).
    cbn [World.maxNestedDepth] in Hm0, Hn0.
    destruct (run_running frames _ b0 p0 Hb0 Hp0 ltac:(lia))
      as (b2 & p2 & Hb2 & _ & Hd2 & Hm2 & Ht2 & Hn2 & _).
    rewrite Hball in Hb2. injection Hb2 as <-.
    split; [apply Hn2, Hn0; lra | apply Ht2; [exact Ht0 | lra]].
Qed.

Lemma tier2_gating_witness :
  let b := BallSim.mk 0 0 0 0 10 900 1 0 2
             (Some (Inner.mk 0 0 4 4 (InnerBall.mk 0 0 0 0 6 990) None)) in
  tier2 (handleRecursiveUpdates b 0 0 (1 / 2) (1 / 2)) <> None <->
  inner b <> None /\ nestedDepth b + 1 < maxNestedDepth b.
Proof.
  cbv zeta.
  refine (proj1 (@tier2_gating
                   (BallSim.mk 0 0 0 0 10 900 1 0 2
                      (Some (Inner.mk 0 0 4 4 (InnerBall.mk 0 0 0 0 6 990) None)))
                   0 0 (1 / 2) (1 / 2) _ _ eq_refl)); lra.
Defined.
End DriverProperties.

(** ** Collision detection *)

Section CollisionScan.
Variable vs : list (Vec.t R).
Variables cx cy : R.

Lemma scanEdge_eq (best : option (Polygon.Best.t R)) (i : nat) :
  Polygon.scanEdge vs cx cy best i =
    match best with
    | None => Some (bestOf vs (Vec.mk cx cy) i)
    | Some b =>
        if Rltb (edgeDistance vs (Vec.mk cx cy) i) (Polygon.Best.dist b)
        then Some (bestOf vs (Vec.mk cx cy) i) else Some b
    end.
Proof.
  unfold Polygon.scanEdge. destruct best as [b|]; reflexivity.
Qed.

(** After the first [m] edges the scan holds the first edge of least
    distance among them. *)
Lemma scan_prefix (m : nat) :
  (1 <= m)%nat ->
  exists i,
    fold_left (Polygon.scanEdge vs cx cy) (seq 0 m) None = Some (bestOf vs (Vec.mk cx cy) i) /\
    (i < m)%nat /\
    (forall j, (j < m)%nat ->
       edgeDistance vs (Vec.mk cx cy) i <= edgeDistance vs (Vec.mk cx cy) j) /\
    (forall j, (j < i)%nat ->
       edgeDistance vs (Vec.mk cx cy) i < edgeDistance vs (Vec.mk cx cy) j).
Proof.
  induction m as [|m IH]; [lia|]. intros _.
  destruct m as [|m'].
  - exists 0%nat. cbn [seq fold_left]. rewrite scanEdge_eq.
    split; [reflexivity|]. split; [lia|]. split.
    + intros j Hj. replace j with 0%nat by lia. lra.
    + intros j Hj. lia.
  - destruct IH as (i & Hfold & Hi & Hmin & Hfirst); [lia|].
    rewrite seq_S, fold_left_app, Hfold. cbn [fold_left Nat.add].
    rewrite scanEdge_eq. cbn [bestOf Polygon.Best.dist].
    unfold Rltb. destruct (Rlt_dec _ _) as [Hlt|Hge].
    + exists (S m'). split; [reflexivity|]. split; [lia|]. split.
      * intros j Hj. destruct (Nat.eq_dec j (S m')) as [->|Hne]; [lra|].
        specialize (Hmin j ltac:(lia)). lra.
      * intros j Hj. specialize (Hmin j Hj). lra.
    + exists i. split; [reflexivity|]. split; [lia|]. split.
      * intros j Hj. destruct (Nat.eq_dec j (S m')) as [->|Hne]; [lra|].
        apply Hmin. lia.
      * exact Hfirst.
Qed.

Lemma scan_all :
  (1 <= length vs)%nat ->
  exists i d,
    fold_left (Polygon.scanEdge vs cx cy) (seq 0 (length vs)) None
      = Some (bestOf vs (Vec.mk cx cy) i) /\
    minEdgeDistance vs (Vec.mk cx cy) i d.
Proof.
  intros Hn. destruct (scan_prefix (length vs) Hn) as (i & Hfold & Hi & Hmin & Hfirst).
  exists i, (edgeDistance vs (Vec.mk cx cy) i).
  split; [exact Hfold|]. repeat split; assumption.
Qed.
End CollisionScan.

Section ClosestPoint.
Variables px py ax ay bx by_ : R.

Lemma closestPointOnSegment_param :
  exists t, 0 <= t <= 1 /\
    Polygon.closestPointOnSegment px py ax ay bx by_
      = Vec.mk (ax + (bx - ax) * t) (ay + (by_ - ay) * t) /\
    let c1 := (bx - ax) * (px - ax) + (by_ - ay) * (py - ay) in
    let c2 := (bx - ax) * (bx - ax) + (by_ - ay) * (by_ - ay) in
    (0 < c2 -> (t = 0 /\ c1 <= 0) \/ (t = 1 /\ c2 <= c1) \/ (t * c2 = c1)).
Proof.
  unfold Polygon.closestPointOnSegment. js_R.
  set (c1 := (bx - ax) * (px - ax) + (by_ - ay) * (py - ay)).
  set (c2 := (bx - ax) * (bx - ax) + (by_ - ay) * (by_ - ay)).
  assert (Hq : 0 < c2 -> c1 / c2 * c2 = c1).
  { intros Hpos. unfold Rdiv. rewrite Rmult_assoc, Rinv_l by (apply Rgt_not_eq; exact Hpos).
    ring. }
  unfold Rltb. destruct (Rlt_dec (c1 / c2) 0) as [Hneg|Hnn].
  - destruct (Rlt_dec 1 0) as [C|_]; [lra|]. exists 0. split; [lra|]. split; [reflexivity|].
    intros Hc2. left. split; [reflexivity|]. specialize (Hq Hc2). nra.
  - destruct (Rlt_dec 1 (c1 / c2)) as [Hbig|Hsmall].
    + exists 1. split; [lra|]. split; [reflexivity|].
      intros Hc2. right; left. split; [reflexivity|]. specialize (Hq Hc2). nra.
    + exists (c1 / c2). split; [lra|]. split; [reflexivity|].
      intros Hc2. right; right. exact (Hq Hc2).
Qed.

Lemma closestPointOnSegment_onSegment :
  onSegment (Vec.mk ax ay) (Vec.mk bx by_) (Polygon.closestPointOnSegment px py ax ay bx by_).
Proof.
  destruct closestPointOnSegment_param as (t & Ht & E & _).
  exists t. split; [exact Ht|]. rewrite E. cbn [Vec.x Vec.y]. f_equal; ring.
Qed.

End ClosestPoint.

Section CollideCircle.
Variable p : @Polygon.t R.
Variables cx cy r : R.

(** The result of [collideCircle] in terms of the nearest edge. *)
Lemma collideCircle_result :
  (1 <= length (Polygon.vertices p))%nat ->
  let vs := Polygon.vertices p in
  let c := Vec.mk cx cy in
  exists i d,
    minEdgeDistance vs c i d /\
    match fst (Polygon.collideCircle p cx cy r) with
    | Some col =>
        d <= r + 1 / 10000 /\
        Polygon.Collision.edgeIndex col = i /\
        Polygon.Collision.pt col = edgeClosest vs c i /\
        Polygon.Collision.penetration col = r - d /\
        (edgeStart vs i <> edgeEnd vs i ->
         let m := edgeNormal vs i in
         let tangentSide := dot (vsub (Polygon.Collision.pt col) (Polygon.center p)) m in
         Polygon.Collision.normal col = (if Rlt_dec tangentSide 0 then vneg m else m) /\
         unitLength (Polygon.Collision.normal col) /\
         0 <= dot (vsub (Polygon.Collision.pt col) (Polygon.center p))
                  (Polygon.Collision.normal col))
    | None => r + 1 / 10000 < d
    end.
Proof.
  intros Hn vs c. destruct (scan_all vs cx cy Hn) as (i & d & Hfold & Hmin).
  exists i, d. split; [exact Hmin|].
  unfold Polygon.collideCircle. fold vs. rewrite Hfold.
  destruct Hmin as (Hi & Hd & _). fold c in Hd |- *.
  cbn [bestOf Polygon.Best.dist Polygon.Best.cp Polygon.Best.i Polygon.Best.a Polygon.Best.b].
  js_R. unfold dec. js_R. rewrite Hd.
  unfold Rleb. destruct (Rle_dec d (r + 1 / 10000)) as [Hle|Hgt]; cbn [fst]; [|lra].
  cbn [Polygon.Collision.edgeIndex Polygon.Collision.pt Polygon.Collision.penetration
       Polygon.Collision.normal].
  split; [exact Hle|]. split; [reflexivity|]. split; [reflexivity|]. split; [reflexivity|].
  intros Hne.
  set (m := edgeNormal vs i).
  set (tangentSide := dot (vsub (edgeClosest vs c i) (Polygon.center p)) m).
  set (ex := Vec.x (edgeEnd vs i) - Vec.x (edgeStart vs i)) in *.
  set (ey := Vec.y (edgeEnd vs i) - Vec.y (edgeStart vs i)) in *.
  assert (Hpos : 0 < ex * ex + ey * ey).
  { destruct (edgeStart vs i) as [sx sy], (edgeEnd vs i) as [tx ty].
    cbn [Vec.x Vec.y] in ex, ey.
    destruct (Req_dec sx tx) as [Hx|Hx]; destruct (Req_dec sy ty) as [Hy|Hy].
    - subst. contradiction Hne; reflexivity.
    - assert (0 < ey * ey) by (subst ey; nra). assert (0 <= ex * ex) by nra. lra.
    - assert (0 < ex * ex) by (subst ex; nra). assert (0 <= ey * ey) by nra. lra.
    - assert (0 < ex * ex) by (subst ex; nra). assert (0 <= ey * ey) by nra. lra. }
  replace (- ey * - ey + ex * ex) with (ex * ex + ey * ey) by ring.
  set (l := R_sqrt.sqrt (ex * ex + ey * ey)).
  assert (Hl : 0 < l) by (apply sqrt_lt_R0; exact Hpos).
  assert (Hll : l * l = ex * ex + ey * ey) by (apply sqrt_sqrt; lra).
  rewrite Rtruthy_true by lra.
  assert (Em : m = Vec.mk (- ey / l) (ex / l)) by reflexivity.
  assert (Et : tangentSide
               = (Vec.x (edgeClosest vs c i) - Vec.x (Polygon.center p)) * (- ey / l)
                 + (Vec.y (edgeClosest vs c i) - Vec.y (Polygon.center p)) * (ex / l)).
  { subst tangentSide. rewrite Em. reflexivity. }
  rewrite <- Et.
  assert (Hunit : (- ey / l) * (- ey / l) + (ex / l) * (ex / l) = 1).
  { replace ((- ey / l) * (- ey / l) + (ex / l) * (ex / l))
      with ((ex * ex + ey * ey) / (l * l)) by (field; lra).
    rewrite Hll. field. lra. }
  unfold Rltb. destruct (Rlt_dec tangentSide 0) as [Hneg|Hnn].
  - split; [rewrite Em; reflexivity|]. split.
    + unfold unitLength. cbn [Vec.x Vec.y]. lra.
    + unfold dot, vsub. cbn [Vec.x Vec.y]. fold c. lra.
  - split; [rewrite Em; reflexivity|]. split.
    + unfold unitLength. cbn [Vec.x Vec.y]. lra.
    + unfold dot, vsub. cbn [Vec.x Vec.y]. fold c. lra.
Qed.
End CollideCircle.

(** ** A polygon of radius 0, on doubles *)

(** A finite number times 0 is a zero, which added to 5 leaves 5. *)
Lemma finite_times_zero (a : float) :
  PrimFloat.is_finite a = true ->
  PrimFloat.add 5 (PrimFloat.mul a 0) = 5%float.
Proof.
  intros Hf.
  rewrite <- (SF2Prim_Prim2SF (PrimFloat.add 5 (PrimFloat.mul a 0))).
  rewrite add_spec, mul_spec.
  unfold PrimFloat.is_finite in Hf.
  apply negb_true_iff, orb_false_iff in Hf. destruct Hf as [Hnan Hinf].
  unfold Prim2SF at 2. rewrite Hnan, Hinf.
  change (Prim2SF 0) with (S754_zero false).
  destruct (PrimFloat.is_zero a).
  - destruct (PrimFloat.get_sign a); vm_compute; reflexivity.
  - destruct (Z.frexp a) as [m ex].
    destruct (shr_fexp _ _ _ _ _) as [shr e'].
    destruct (shr_m shr) as [|q|q].
    + vm_compute; reflexivity.
    + destruct (PrimFloat.get_sign a); vm_compute; reflexivity.
    + vm_compute; reflexivity.
Qed.

(** The constructor called with radius 0 builds [degenerate_polygon], on
    every engine whose cosine and sine of a finite number are finite. *)
Lemma new_degenerate_polygon (approx_cos approx_sin : float -> float)
    (approx_hypot approx_pow : float -> float -> float) :
  (forall a, PrimFloat.is_finite a = true -> PrimFloat.is_finite (approx_cos a) = true) ->
  (forall a, PrimFloat.is_finite a = true -> PrimFloat.is_finite (approx_sin a) = true) ->
  Polygon.new (ML := float_math approx_cos approx_sin approx_hypot approx_pow)
    5%float 5%float 0%float 4%float 0%float
  = degenerate_polygon.
Proof.
  intros Hc Hs. vm_compute.
  rewrite !finite_times_zero; try reflexivity;
    first [apply Hc | apply Hs]; vm_compute; reflexivity.
Qed.


(** ** The nearest edge *)



(** ** Distances *)

Lemma distance_nonneg (a b : Vec.t R) : 0 <= distance a b.
Proof. unfold distance. apply sqrt_pos. Qed.

Lemma distance_sqr (a b : Vec.t R) :
  distance a b * distance a b
    = (Vec.x a - Vec.x b) * (Vec.x a - Vec.x b) + (Vec.y a - Vec.y b) * (Vec.y a - Vec.y b).
Proof.
  unfold distance. apply sqrt_sqrt.
  pose proof (Rle_0_sqr (Vec.x a - Vec.x b)). pose proof (Rle_0_sqr (Vec.y a - Vec.y b)).
  unfold Rsqr in *. lra.
Qed.

Lemma distance_sym (a b : Vec.t R) : distance a b = distance b a.
Proof. unfold distance. f_equal. ring. Qed.

(** A bound on the square bounds the distance. *)
Lemma distance_le (a b : Vec.t R) (k : R) :
  0 <= k ->
  (Vec.x a - Vec.x b) * (Vec.x a - Vec.x b) + (Vec.y a - Vec.y b) * (Vec.y a - Vec.y b)
    <= k * k ->
  distance a b <= k.
Proof.
  intros Hk H. rewrite <- (sqrt_square k Hk). unfold distance. apply sqrt_le_1_alt. exact H.
Qed.

Lemma distance_ge (a b : Vec.t R) (k : R) :
  0 <= k ->
  k * k
    <= (Vec.x a - Vec.x b) * (Vec.x a - Vec.x b) + (Vec.y a - Vec.y b) * (Vec.y a - Vec.y b) ->
  k <= distance a b.
Proof.
  intros Hk H. rewrite <- (sqrt_square k Hk). unfold distance. apply sqrt_le_1_alt. exact H.
Qed.

Lemma distance_triangle (a b c : Vec.t R) :
  distance a c <= distance a b + distance b c.
Proof.
  pose proof (distance_nonneg a b) as HA. pose proof (distance_nonneg b c) as HB.
  pose proof (distance_sqr a b) as EA. pose proof (distance_sqr b c) as EB.
  apply distance_le; [lra|].
  set (A := distance a b) in *. set (B := distance b c) in *.
  set (ux := Vec.x a - Vec.x b) in *. set (uy := Vec.y a - Vec.y b) in *.
  set (vx := Vec.x b - Vec.x c) in *. set (vy := Vec.y b - Vec.y c) in *.
  replace (Vec.x a - Vec.x c) with (ux + vx) by (subst ux vx; ring).
  replace (Vec.y a - Vec.y c) with (uy + vy) by (subst uy vy; ring).
  assert (Hcs : ux * vx + uy * vy <= A * B).
  { destruct (Rle_dec (ux * vx + uy * vy) (A * B)) as [|Hgt]; [assumption|exfalso].
    apply Rnot_le_lt in Hgt.
    assert (HAB : 0 <= A * B) by (apply Rmult_le_pos; assumption).
    assert (Hsq : (A * B) * (A * B) < (ux * vx + uy * vy) * (ux * vx + uy * vy))
      by (apply Rmult_le_0_lt_compat; lra).
    assert (Hid : (A * B) * (A * B) - (ux * vx + uy * vy) * (ux * vx + uy * vy)
                  = (ux * vy - uy * vx) * (ux * vy - uy * vx)).
    { replace ((A * B) * (A * B)) with ((A * A) * (B * B)) by ring. rewrite EA, EB. ring. }
    pose proof (Rle_0_sqr (ux * vy - uy * vx)) as Hp. unfold Rsqr in Hp. lra. }
  replace ((A + B) * (A + B)) with (A * A + 2 * (A * B) + B * B) by ring.
  rewrite EA, EB.
  replace ((ux + vx) * (ux + vx) + (uy + vy) * (uy + vy))
    with (ux * ux + uy * uy + 2 * (ux * vx + uy * vy) + (vx * vx + vy * vy)) by ring.
  lra.
Qed.

(** ** Regular polygons *)

Section Regular.
Variable p : @Polygon.t R.
Hypothesis Hrep : representation p.

Lemma regular_length : length (Polygon.vertices p) = Z.to_nat (Polygon.sides p).
Proof. destruct Hrep as (_ & H & _). lia. Qed.

Lemma regular_sides_INR : IZR (Polygon.sides p) = INR (length (Polygon.vertices p)).
Proof. destruct Hrep as (_ & H & _). rewrite INR_IZR_INZ, H. reflexivity. Qed.

Lemma regular_sides_ge : 3 <= IZR (Polygon.sides p).
Proof. destruct Hrep as (H & _). apply IZR_le in H. exact H. Qed.

Lemma regular_vertex (i : nat) :
  (i < length (Polygon.vertices p))%nat ->
  Polygon.vertex (Polygon.vertices p) i = regularVertex p i.
Proof.
  intros Hi. destruct Hrep as (_ & _ & H). unfold Polygon.vertex.
  apply nth_error_nth. apply H. exact Hi.
Qed.

Lemma regular_edgeStart (i : nat) :
  (i < length (Polygon.vertices p))%nat ->
  edgeStart (Polygon.vertices p) i = regularVertex p i.
Proof. apply regular_vertex. Qed.

Lemma regular_edgeEnd (i : nat) :
  (i < length (Polygon.vertices p))%nat ->
  edgeEnd (Polygon.vertices p) i = regularVertex p ((i + 1) mod length (Polygon.vertices p)).
Proof.
  intros Hi. unfold edgeEnd. apply regular_vertex. apply Nat.mod_upper_bound. lia.
Qed.

(** Consecutive vertices are a turn of [2 pi / n] apart, the last and the
    first included. *)
Lemma regular_step (i : nat) :
  (i < length (Polygon.vertices p))%nat ->
  Rtrigo_def.cos (vertexAngle p ((i + 1) mod length (Polygon.vertices p)) - vertexAngle p i)
    = Rtrigo_def.cos (2 * Rtrigo1.PI / IZR (Polygon.sides p)).
Proof.
  intros Hi. pose proof regular_sides_ge as H3. pose proof regular_sides_INR as HN.
  set (n := length (Polygon.vertices p)) in *.
  assert (HN0 : IZR (Polygon.sides p) <> 0) by lra.
  unfold vertexAngle.
  destruct (Nat.eq_dec (i + 1) n) as [Hlast|Hmid].
  - rewrite Hlast, Nat.Div0.mod_same.
    assert (Ei : INR i = IZR (Polygon.sides p) - 1).
    { rewrite HN, <- Hlast, plus_INR. cbn [INR]. ring. }
    rewrite Ei. cbn [INR].
    replace (Polygon.rotation p + 0 * (2 * Rtrigo1.PI) / IZR (Polygon.sides p) -
             (Polygon.rotation p + (IZR (Polygon.sides p) - 1) * (2 * Rtrigo1.PI)
                                   / IZR (Polygon.sides p)))
      with (2 * Rtrigo1.PI / IZR (Polygon.sides p) - 2 * Rtrigo1.PI) by (field; exact HN0).
    rewrite cos_minus, cos_2PI, sin_2PI. ring.
  - rewrite Nat.mod_small by lia. f_equal. rewrite plus_INR. cbn [INR].
    field. exact HN0.
Qed.

Lemma regular_half_angle :
  0 < Rtrigo1.PI / IZR (Polygon.sides p) < Rtrigo1.PI / 2.
Proof.
  pose proof regular_sides_ge as H3. pose proof PI_RGT_0 as Hpi.
  split.
  - apply Rdiv_lt_0_compat; lra.
  - unfold Rdiv. apply Rmult_lt_compat_l; [exact Hpi|].
    apply Rinv_lt_contravar; lra.
Qed.

Lemma regular_cos_step :
  Rtrigo_def.cos (2 * Rtrigo1.PI / IZR (Polygon.sides p))
    = 2 * (Rtrigo_def.cos (Rtrigo1.PI / IZR (Polygon.sides p))
           * Rtrigo_def.cos (Rtrigo1.PI / IZR (Polygon.sides p))) - 1.
Proof.
  replace (2 * Rtrigo1.PI / IZR (Polygon.sides p))
    with (2 * (Rtrigo1.PI / IZR (Polygon.sides p)))
    by (pose proof regular_sides_ge; field; lra).
  rewrite cos_2a_cos. ring.
Qed.

(** The squared distance from the center to the point at parameter [t]
    of the line through two consecutive vertices. *)
Lemma regular_line_sqr (i : nat) (t : R) :
  (i < length (Polygon.vertices p))%nat ->
  let a := regularVertex p i in
  let b := regularVertex p ((i + 1) mod length (Polygon.vertices p)) in
  let qx := Vec.x a + (Vec.x b - Vec.x a) * t in
  let qy := Vec.y a + (Vec.y b - Vec.y a) * t in
  let k := Rtrigo_def.cos (Rtrigo1.PI / IZR (Polygon.sides p)) in
  (qx - Polygon.cx p) * (qx - Polygon.cx p) + (qy - Polygon.cy p) * (qy - Polygon.cy p)
    = Polygon.radius p * Polygon.radius p
      * ((1 - t) * (1 - t) + t * t + 2 * t * (1 - t) * (2 * (k * k) - 1)).
Proof.
  intros Hi a b qx qy k. subst qx qy a b. unfold regularVertex. cbn [Vec.x Vec.y].
  pose proof (regular_step i Hi) as Hstep. rewrite cos_minus, regular_cos_step in Hstep.
  fold (vertexAngle p i). fold (vertexAngle p ((i + 1) mod length (Polygon.vertices p))).
  set (ta := vertexAngle p i) in *.
  set (tb := vertexAngle p ((i + 1) mod length (Polygon.vertices p))) in *.
  pose proof (sin2_cos2 ta) as Ha. pose proof (sin2_cos2 tb) as Hb.
  unfold Rsqr in Ha, Hb. fold k in Hstep.
  set (ca := Rtrigo_def.cos ta) in *. set (sa := Rtrigo_def.sin ta) in *.
  set (cb := Rtrigo_def.cos tb) in *. set (sb := Rtrigo_def.sin tb) in *.
  set (R0 := Polygon.radius p).
  replace ((Polygon.cx p + R0 * ca + (Polygon.cx p + R0 * cb - (Polygon.cx p + R0 * ca)) * t
            - Polygon.cx p)
           * (Polygon.cx p + R0 * ca + (Polygon.cx p + R0 * cb - (Polygon.cx p + R0 * ca)) * t
              - Polygon.cx p)
           + (Polygon.cy p + R0 * sa + (Polygon.cy p + R0 * sb - (Polygon.cy p + R0 * sa)) * t
              - Polygon.cy p)
             * (Polygon.cy p + R0 * sa + (Polygon.cy p + R0 * sb - (Polygon.cy p + R0 * sa)) * t
                - Polygon.cy p))
    with (R0 * R0 * ((1 - t) * (1 - t) * (sa * sa + ca * ca) + t * t * (sb * sb + cb * cb)
                     + 2 * t * (1 - t) * (cb * ca + sb * sa))) by ring.
  rewrite Ha, Hb, Hstep. ring.
Qed.

Lemma regular_cos_half : 0 < Rtrigo_def.cos (Rtrigo1.PI / IZR (Polygon.sides p)) < 1.
Proof.
  pose proof regular_half_angle as [Hlo Hhi]. pose proof PI_RGT_0 as Hpi.
  set (h := Rtrigo1.PI / IZR (Polygon.sides p)) in *.
  assert (Hc : 0 < Rtrigo_def.cos h) by (apply cos_gt_0; lra).
  assert (Hs : 0 < Rtrigo_def.sin h) by (apply sin_gt_0; lra).
  pose proof (sin2_cos2 h) as E. unfold Rsqr in E.
  split; [exact Hc|]. nra.
Qed.

(** Every point of the line through two consecutive vertices is at least
    the apothem away from the center. *)
Lemma regular_line_far (i : nat) (t : R) :
  (i < length (Polygon.vertices p))%nat ->
  let a := regularVertex p i in
  let b := regularVertex p ((i + 1) mod length (Polygon.vertices p)) in
  let qx := Vec.x a + (Vec.x b - Vec.x a) * t in
  let qy := Vec.y a + (Vec.y b - Vec.y a) * t in
  apothem p * apothem p
    <= (qx - Polygon.cx p) * (qx - Polygon.cx p) + (qy - Polygon.cy p) * (qy - Polygon.cy p).
Proof.
  intros Hi a b qx qy. subst qx qy a b.
  pose proof (regular_line_sqr i t Hi) as E. cbv zeta in E. rewrite E. clear E.
  unfold apothem. pose proof regular_cos_half as [Hk0 Hk1].
  set (k := Rtrigo_def.cos (Rtrigo1.PI / IZR (Polygon.sides p))) in *.
  set (R0 := Polygon.radius p).
  replace (R0 * k * (R0 * k)) with (R0 * R0 * (k * k)) by ring.
  apply Rmult_le_compat_l; [apply Rle_0_sqr|].
  assert (Hk : k * k <= 1) by nra.
  assert (E : (1 - t) * (1 - t) + t * t + 2 * t * (1 - t) * (2 * (k * k) - 1) - k * k
              = (1 - k * k) * ((1 - 2 * t) * (1 - 2 * t))) by ring.
  assert (0 <= (1 - k * k) * ((1 - 2 * t) * (1 - 2 * t)))
    by (apply Rmult_le_pos; [lra | apply Rle_0_sqr]).
  lra.
Qed.

(** Every point of an edge is at most the radius away from the center. *)
Lemma regular_segment_near (i : nat) (t : R) :
  (i < length (Polygon.vertices p))%nat ->
  0 <= t <= 1 ->
  let a := regularVertex p i in
  let b := regularVertex p ((i + 1) mod length (Polygon.vertices p)) in
  let qx := Vec.x a + (Vec.x b - Vec.x a) * t in
  let qy := Vec.y a + (Vec.y b - Vec.y a) * t in
  (qx - Polygon.cx p) * (qx - Polygon.cx p) + (qy - Polygon.cy p) * (qy - Polygon.cy p)
    <= Polygon.radius p * Polygon.radius p.
Proof.
  intros Hi Ht a b qx qy. subst qx qy a b.
  pose proof (regular_line_sqr i t Hi) as E. cbv zeta in E. rewrite E. clear E.
  pose proof regular_cos_half as [Hk0 Hk1].
  set (k := Rtrigo_def.cos (Rtrigo1.PI / IZR (Polygon.sides p))) in *.
  set (R0 := Polygon.radius p).
  rewrite <- (Rmult_1_r (R0 * R0)) at 2.
  apply Rmult_le_compat_l; [apply Rle_0_sqr|].
  assert (Hk : k * k <= 1) by nra.
  assert (E : 1 - ((1 - t) * (1 - t) + t * t + 2 * t * (1 - t) * (2 * (k * k) - 1))
              = 4 * (t * (1 - t)) * (1 - k * k)) by ring.
  assert (0 <= 4 * (t * (1 - t)) * (1 - k * k)).
  { apply Rmult_le_pos; [|lra]. apply Rmult_le_pos; [lra|]. apply Rmult_le_pos; lra. }
  lra.
Qed.

(** With a radius other than 0, consecutive vertices are distinct. *)
Lemma regular_nondegenerate :
  Polygon.radius p <> 0 -> nondegenerate (Polygon.vertices p).
Proof.
  intros HR i Hi Heq. rewrite regular_edgeStart, regular_edgeEnd in Heq by exact Hi.
  pose proof (regular_step i Hi) as Hstep. rewrite cos_minus, regular_cos_step in Hstep.
  unfold regularVertex in Heq.
  fold (vertexAngle p i) in Heq.
  fold (vertexAngle p ((i + 1) mod length (Polygon.vertices p))) in Heq.
  set (ta := vertexAngle p i) in *.
  set (tb := vertexAngle p ((i + 1) mod length (Polygon.vertices p))) in *.
  injection Heq as Hx Hy.
  assert (Hc : Rtrigo_def.cos ta = Rtrigo_def.cos tb).
  { apply (Rmult_eq_reg_l (Polygon.radius p)); [lra | exact HR]. }
  assert (Hs : Rtrigo_def.sin ta = Rtrigo_def.sin tb).
  { apply (Rmult_eq_reg_l (Polygon.radius p)); [lra | exact HR]. }
  rewrite Hc, Hs in Hstep. pose proof (sin2_cos2 tb) as E. unfold Rsqr in E.
  pose proof regular_cos_half as [Hk0 Hk1]. nra.
Qed.

Lemma regular_apothem_pos : 0 < Polygon.radius p -> 0 < apothem p.
Proof.
  intros HR. unfold apothem. apply Rmult_lt_0_compat; [exact HR|].
  pose proof regular_half_angle as [Hlo Hhi]. apply cos_gt_0; lra.
Qed.

(** The closest point the code finds on any edge is at least the apothem
    away from the center. *)
Lemma regular_edge_far (c : Vec.t R) (i : nat) :
  (i < length (Polygon.vertices p))%nat ->
  0 < Polygon.radius p ->
  apothem p <= distance (Polygon.center p) (edgeClosest (Polygon.vertices p) c i).
Proof.
  intros Hi HR. pose proof (regular_apothem_pos HR) as Hap.
  unfold edgeClosest. rewrite regular_edgeStart, regular_edgeEnd by exact Hi.
  destruct (closestPointOnSegment_param (Vec.x c) (Vec.y c)
              (Vec.x (regularVertex p i)) (Vec.y (regularVertex p i))
              (Vec.x (regularVertex p ((i + 1) mod length (Polygon.vertices p))))
              (Vec.y (regularVertex p ((i + 1) mod length (Polygon.vertices p)))))
    as (t & _ & -> & _).
  apply distance_ge; [lra|]. cbn [Polygon.center Vec.x Vec.y].
  pose proof (regular_line_far i t Hi) as H. cbv zeta in H.
  match goal with
  | |- _ <= ?a * ?a + ?b * ?b =>
      replace (a * a + b * b) with ((- a) * (- a) + (- b) * (- b)) by ring
  end.
  match type of H with
  | _ <= ?u * ?u + ?v * ?v =>
      match goal with
      | |- _ <= ?a * ?a + ?b * ?b =>
          replace a with u by ring; replace b with v by ring
      end
  end.
  exact H.
Qed.
End Regular.

(** ** Hits and misses *)

Section HitsAndMisses.
Variable p : @Polygon.t R.
Variables cx cy r : R.

Lemma collideCircle_miss :
  (1 <= length (Polygon.vertices p))%nat ->
  (forall j, (j < length (Polygon.vertices p))%nat ->
     r + 1 / 10000 < edgeDistance (Polygon.vertices p) (Vec.mk cx cy) j) ->
  fst (Polygon.collideCircle p cx cy r) = None.
Proof.
  intros Hn Hfar. destruct (collideCircle_result p cx cy r Hn) as (i & d & Hmin & Hres).
  destruct (fst (Polygon.collideCircle p cx cy r)) as [col|]; [exfalso|reflexivity].
  destruct Hres as (Hle & _). destruct Hmin as (Hi & Hd & _).
  specialize (Hfar i Hi). lra.
Qed.

Lemma collideCircle_hit (j : nat) :
  (j < length (Polygon.vertices p))%nat ->
  edgeDistance (Polygon.vertices p) (Vec.mk cx cy) j <= r + 1 / 10000 ->
  fst (Polygon.collideCircle p cx cy r) <> None.
Proof.
  intros Hj Hnear. destruct (collideCircle_result p cx cy r ltac:(lia)) as (i & d & Hmin & Hres).
  destruct (fst (Polygon.collideCircle p cx cy r)) as [col|]; [discriminate|exfalso].
  destruct Hmin as (_ & _ & Hall & _). specialize (Hall j Hj). lra.
Qed.

(** A circle that reaches over a whole regular polygon hits it. *)
Lemma collideCircle_hit_covering :
  representation p ->
  distance (Vec.mk cx cy) (Polygon.center p) + Rabs (Polygon.radius p) <= r + 1 / 10000 ->
  fst (Polygon.collideCircle p cx cy r) <> None.
Proof.
  intros Hrep Hcover.
  assert (Hn : (0 < length (Polygon.vertices p))%nat).
  { destruct Hrep as (H3 & Hlen & _). lia. }
  apply (collideCircle_hit 0 Hn).
  unfold edgeDistance.
  eapply Rle_trans; [apply (distance_triangle _ (Polygon.center p))|].
  assert (distance (Polygon.center p) (edgeClosest (Polygon.vertices p) (Vec.mk cx cy) 0)
          <= Rabs (Polygon.radius p)); [|lra].
  unfold edgeClosest. rewrite regular_edgeStart, regular_edgeEnd by assumption.
  destruct (closestPointOnSegment_param cx cy
              (Vec.x (regularVertex p 0)) (Vec.y (regularVertex p 0))
              (Vec.x (regularVertex p ((0 + 1) mod length (Polygon.vertices p))))
              (Vec.y (regularVertex p ((0 + 1) mod length (Polygon.vertices p)))))
    as (t & Ht & E & _).
  cbn [Vec.x Vec.y]. rewrite E.
  apply distance_le; [apply Rabs_pos|]. cbn [Polygon.center Vec.x Vec.y].
  pose proof (regular_segment_near p Hrep 0 t Hn Ht) as H. cbv zeta in H.
  replace (Rabs (Polygon.radius p) * Rabs (Polygon.radius p))
    with (Polygon.radius p * Polygon.radius p)
    by (rewrite <- Rabs_mult; symmetry; apply Rabs_pos_eq; apply Rle_0_sqr).
  match goal with
  | |- ?a * ?a + ?b * ?b <= _ =>
      replace (a * a + b * b) with ((- a) * (- a) + (- b) * (- b)) by ring
  end.
  match type of H with
  | ?u * ?u + ?v * ?v <= _ =>
      match goal with
      | |- ?a * ?a + ?b * ?b <= _ =>
          replace a with u by ring; replace b with v by ring
      end
  end.
  exact H.
Qed.

(** C9 (amended).  For a regular polygon of positive radius and a circle
    such that the distance between the two centers, plus the radius of
    the circle, plus the tolerance 1e-4 is less than the apothem of the
    polygon, [collideCircle] reports no hit. *)
Theorem collideCircle_misses_circle_within_apothem :
  representation p ->
  0 < Polygon.radius p ->
  distance (Vec.mk cx cy) (Polygon.center p) + r + 1 / 10000 < apothem p ->
  fst (Polygon.collideCircle p cx cy r) = None.
Proof.
  intros Hrep HR Hfit.
  assert (Hn : (1 <= length (Polygon.vertices p))%nat).
  { destruct Hrep as (H3 & Hlen & _). lia. }
  apply collideCircle_miss; [exact Hn|].
  intros j Hj. unfold edgeDistance.
  pose proof (regular_edge_far p Hrep (Vec.mk cx cy) j Hj HR) as Hfar.
  pose proof (distance_triangle (Polygon.center p) (Vec.mk cx cy)
                (edgeClosest (Polygon.vertices p) (Vec.mk cx cy) j)) as Htri.
  rewrite (distance_sym (Polygon.center p) (Vec.mk cx cy)) in Htri.
  lra.
Qed.
End HitsAndMisses.

Lemma collideCircle_misses_circle_within_apothem_witness :
  fst (Polygon.collideCircle (Polygon.new (num := R) 0 0 100 3 0) 0 0 10) = None.
Proof.
  apply collideCircle_misses_circle_within_apothem.
  - apply constructed_representation. constructor.
  - cbn [Polygon.new Polygon.updateVertices Polygon.radius]. lra.
  - unfold apothem, distance.
    cbn [Polygon.new Polygon.updateVertices Polygon.radius Polygon.sides Polygon.center
         Polygon.cx Polygon.cy Vec.x Vec.y].
    js_R. rewrite ZfloorZ. change (Z.max 3 3) with 3%Z. rewrite cos_PI3.
    replace ((0 - 0) * (0 - 0) + (0 - 0) * (0 - 0)) with 0 by ring. rewrite sqrt_0. lra.
Defined.

(** The square of radius 1 around the origin with a vertex at angle 0. *)
Lemma square_vertices :
  Polygon.vertices (Polygon.new (num := R) 0 0 1 4 0)
    = [Vec.mk 1 0; Vec.mk 0 1; Vec.mk (-1) 0; Vec.mk 0 (-1)].
Proof.
  unfold Polygon.new, Polygon.updateVertices.
  cbn [Polygon.vertices Polygon.sides Polygon.cx Polygon.cy Polygon.radius Polygon.rotation].
  js_R. rewrite ZfloorZ. change (Z.to_nat (Z.max 3 4)) with 4%nat. cbn [seq map].
  change (Z.max 3 4) with 4%Z.
  change (Z.of_nat 0) with 0%Z. change (Z.of_nat 1) with 1%Z.
  change (Z.of_nat 2) with 2%Z. change (Z.of_nat 3) with 3%Z.
  replace (0 + 0 / 4 * (Rtrigo1.PI * 2)) with 0 by field.
  replace (0 + 1 / 4 * (Rtrigo1.PI * 2)) with (Rtrigo1.PI / 2) by field.
  replace (0 + 2 / 4 * (Rtrigo1.PI * 2)) with Rtrigo1.PI by field.
  replace (0 + 3 / 4 * (Rtrigo1.PI * 2)) with (3 * (Rtrigo1.PI / 2)) by field.
  rewrite cos_0, sin_0, cos_PI2, sin_PI2, cos_PI, sin_PI, cos_3PI2, sin_3PI2.
  repeat (f_equal; try ring).
Qed.

(** C9 (counterexample).  In the square of radius 1 around the origin the
    point (0.6, 0) is strictly inside, the radius 0.5 is less than the
    apothem, and the circle is reported as hitting: it is 0.283 away from
    the edge between (1, 0) and (0, 1). *)
Lemma collideCircle_hits_circle_near_edge :
  let p := Polygon.new (num := R) 0 0 1 4 0 in
  representation p /\
  inside (Polygon.vertices p) (Vec.mk (6 / 10) 0) /\
  1 / 2 < apothem p /\
  fst (Polygon.collideCircle p (6 / 10) 0 (1 / 2)) <> None.
Proof.
  cbv zeta. split; [apply constructed_representation; constructor|]. split; [|split].
  - rewrite square_vertices. intros i Hi. cbn [length] in Hi.
    unfold edgeStart, edgeEnd, Polygon.vertex.
    destruct i as [|[|[|[|i]]]]; [| | | |lia];
      cbn [length Nat.add Nat.modulo Nat.divmod Nat.sub snd nth Vec.x Vec.y]; lra.
  - unfold apothem. cbn [Polygon.new Polygon.updateVertices Polygon.radius Polygon.sides].
    js_R. rewrite ZfloorZ. change (Z.max 3 4) with 4%Z. rewrite cos_PI4.
    assert (H2 : 0 < R_sqrt.sqrt 2) by (apply sqrt_lt_R0; lra).
    assert (E2 : R_sqrt.sqrt 2 * R_sqrt.sqrt 2 = 2) by (apply sqrt_sqrt; lra).
    assert (Hlt : R_sqrt.sqrt 2 < 2) by nra.
    apply (Rmult_lt_reg_r (R_sqrt.sqrt 2)); [exact H2|].
    replace (1 * (1 / R_sqrt.sqrt 2) * R_sqrt.sqrt 2) with 1 by (field; lra). lra.
  - apply (collideCircle_hit _ _ _ _ 0).
    + rewrite square_vertices. cbn [length]. lia.
    + rewrite square_vertices. unfold edgeDistance, edgeClosest, edgeStart, edgeEnd, Polygon.vertex.
      cbn [length Nat.add Nat.modulo Nat.divmod Nat.sub snd nth Vec.x Vec.y].
      destruct (closestPointOnSegment_param (6 / 10) 0 1 0 0 1) as (t & Ht & E & Hcase).
      rewrite E. cbv zeta in Hcase.
      assert (Et : t = 2 / 10).
      { destruct Hcase as [[_ C]|[[_ C]|C]]; lra. }
      subst t. apply distance_le; [lra|]. cbn [Vec.x Vec.y]. lra.
Qed.

(** ** A collision of the world ball *)

(** A ball of radius 250 at the center of the hexagon of radius 100
    covers it: the tick reports a collision and the hexagon gets a
    seventh side. *)
Lemma world_polygon_growth_witness :
  let p := Polygon.new (num := R) 0 0 100 6 0 in
  let b := BallSim.mk 0 0 0 0 250 900 1 0 0 None in
  exists p',
    App.World.worldPolygon
      (App.update (App.World.mk (Some p) (Some b) None 0) 0 800 600 0 0) = Some p' /\
    Polygon.sides p' = 7%Z.
Proof.
  cbv zeta.
  assert (Hrep : representation (Polygon.new (num := R) 0 0 100 6 0))
    by (apply constructed_representation; constructor).
  assert (Hs : Polygon.sides (Polygon.new (num := R) 0 0 100 6 0) = 6%Z).
  { cbn [Polygon.new Polygon.updateVertices Polygon.sides]. js_R. rewrite ZfloorZ.
    reflexivity. }
  assert (H3 : Z.le 3 (Polygon.sides (Polygon.new (num := R) 0 0 100 6 0)))
    by (rewrite Hs; lia).
  destruct (proj1 (@world_polygon_growth
                     (App.World.mk (Some (Polygon.new (num := R) 0 0 100 6 0))
                                   (Some (BallSim.mk 0 0 0 0 250 900 1 0 0 None)) None 0)
                     _ _ 0 800 600 0 0 eq_refl eq_refl H3))
    as (p' & E & Hp').
  exists p'. split; [exact E|]. rewrite Hp', Hs.
  assert (Hb : BallSim.integrate
                 (BallSim.applyGravity (BallSim.mk 0 0 0 0 250 900 1 0 0 None) 0) 0
               = BallSim.mk 0 0 0 0 250 900 1 0 0 None).
  { unfold BallSim.integrate, BallSim.applyGravity.
    cbn [BallSim.x BallSim.y BallSim.vx BallSim.vy BallSim.radius BallSim.gravity
         BallSim.friction BallSim.nestedDepth BallSim.maxNestedDepth BallSim.inner].
    js_R. replace (0 * 60) with 0 by ring. rewrite Rpower_O by lra. f_equal; ring. }
  rewrite Hb.
  assert (Hhit : fst (Polygon.collideCircle (Polygon.new (num := R) 0 0 100 6 0) 0 0 250)
                 <> None).
  { apply collideCircle_hit_covering; [exact Hrep|].
    unfold distance.
    cbn [Polygon.new Polygon.updateVertices Polygon.radius Polygon.center
         Polygon.cx Polygon.cy Vec.x Vec.y].
    replace ((0 - 0) * (0 - 0) + (0 - 0) * (0 - 0)) with 0 by ring.
    rewrite sqrt_0, Rabs_pos_eq by lra. lra. }
  unfold BallSim.handleCollisionWithPolygon.
  cbn [BallSim.x BallSim.y BallSim.radius].
  destruct (Polygon.collideCircle (Polygon.new (num := R) 0 0 100 6 0) 0 0 250)
    as [[col|] q]; cbn [fst] in *; [reflexivity|contradiction Hhit; reflexivity].
Defined.

(** ** Growth of the inner polygon *)

Section InnerGrowth.
Import BallSim.

Lemma updateInner_fst (b : BallSim.t R) (ip : Inner.t R) (dt : R) :
  inner b = Some ip ->
  let ball := Inner.ball ip in
  let vy := InnerBall.vy ball + gravity b * (5 / 10) * dt in
  let x := InnerBall.x ball + InnerBall.vx ball * dt in
  let y := InnerBall.y ball + vy * dt in
  let innerPoly :=
    Polygon.new (Inner.cx ip) (Inner.cy ip) (Inner.radius ip) (Inner.polygonSides ip)
                (Rtrigo1.PI / 2) in
  fst (updateInner b dt)
    = match fst (Polygon.collideCircle innerPoly x y (InnerBall.radius ball)) with
      | Some _ => true
      | None => false
      end.
Proof.
  intros E. cbv zeta. unfold updateInner. rewrite E. js_R. unfold dec. js_R.
  destruct (Polygon.collideCircle _ _ _ _) as [[col|] q]; reflexivity.
Qed.

Lemma updateInnerMany_bounds (dts : list R) (b : BallSim.t R) :
  innerSides b <= 20 ->
  innerSides b <= innerSides (updateInnerMany b dts) <= 20.
Proof.
  revert b. induction dts as [|dt dts IH]; intros b Hb; cbn [updateInnerMany fold_left].
  - lra.
  - pose proof (updateInner_sides b dt) as E.
    assert (Hstep : innerSides b <= innerSides (snd (updateInner b dt)) <= 20).
    { rewrite E. unfold innerSides in *. destruct (inner b) as [ip|]; [|lra].
      destruct (fst (updateInner b dt)); [|lra].
      unfold Rmin. destruct (Rle_dec 20 (Inner.polygonSides ip + 1)); lra. }
    specialize (IH (snd (updateInner b dt)) (proj2 Hstep)). unfold updateInnerMany in IH. lra.
Qed.

(** C6 (amended).  For an inner level whose side count is at most 20,
    [updateInner] never decreases the count and never takes it above 20,
    in one call and over any sequence of calls.  A call that reports a
    hit sets the count to [min(20, count + 1)]: for an integer count that
    is the count plus exactly 1, unless the count is already 20; a call
    that reports no hit leaves it alone. *)
Theorem inner_side_count (b : BallSim.t R) (ip : Inner.t R) (dt : R) :
  inner b = Some ip ->
  Inner.polygonSides ip <= 20 ->
  let s := Inner.polygonSides ip in
  (exists ip', inner (snd (updateInner b dt)) = Some ip' /\
     let s' := Inner.polygonSides ip' in
     s <= s' <= 20 /\
     (fst (updateInner b dt) = false -> s' = s) /\
     (fst (updateInner b dt) = true ->
        s' = Rmin 20 (s + 1) /\
        ((exists k : Z, s = IZR k) -> (s = 20 /\ s' = 20) \/ (s <> 20 /\ s' = s + 1)))) /\
  (forall dts1 dts2,
     s <= innerSides (updateInnerMany b dts1) /\
     innerSides (updateInnerMany b dts1) <= innerSides (updateInnerMany b (dts1 ++ dts2)) /\
     innerSides (updateInnerMany b (dts1 ++ dts2)) <= 20).
Proof.
  intros E Hs s. change (s <= 20) in Hs. split.
  - pose proof (updateInner_shape b dt) as (_ & _ & _ & H). cbv zeta in H. rewrite E in H.
    destruct H as (ip' & E' & _ & _ & Hs'). exists ip'. split; [exact E'|].
    cbv zeta. rewrite Hs'. fold s.
    destruct (fst (updateInner b dt)).
    + assert (Hmin : s <= Rmin 20 (s + 1) <= 20).
      { unfold Rmin. destruct (Rle_dec 20 (s + 1)); lra. }
      split; [exact Hmin|]. split; [discriminate|]. intros _. split; [reflexivity|].
      intros (k & Hk).
      destruct (Z.eq_dec k 20) as [->|Hne].
      * left. split; [exact Hk|]. rewrite Hk. unfold Rmin.
        destruct (Rle_dec 20 (20 + 1)); lra.
      * right. assert (Hk19 : (k <= 19)%Z).
        { assert (k <= 20)%Z by (apply le_IZR; rewrite <- Hk; exact Hs). lia. }
        apply IZR_le in Hk19. split.
        -- rewrite Hk. lra.
        -- unfold Rmin. destruct (Rle_dec 20 (s + 1)); lra.
    + split; [lra|]. split; [reflexivity|]. discriminate.
  - intros dts1 dts2.
    assert (Hb : innerSides b = s) by (unfold innerSides; rewrite E; reflexivity).
    assert (Hb20 : innerSides b <= 20) by lra.
    pose proof (updateInnerMany_bounds dts1 b Hb20) as [H1 H1'].
    pose proof (updateInnerMany_bounds dts2 (updateInnerMany b dts1) H1') as [H2 H2'].
    unfold updateInnerMany in *. rewrite fold_left_app. lra.
Qed.

Lemma inner_side_count_witness :
  let ip := Inner.mk 0 0 4 4 (InnerBall.mk 0 0 0 0 6 990) None in
  let b := BallSim.mk 0 0 0 0 10 900 1 0 1 (Some ip) in
  Inner.polygonSides ip <= 20 /\
  4 <= innerSides (updateInnerMany b [0]) /\
  innerSides (updateInnerMany b [0]) <= innerSides (updateInnerMany b ([0] ++ [1])) /\
  innerSides (updateInnerMany b ([0] ++ [1])) <= 20.
Proof.
  cbv zeta.
  assert (H20 : Inner.polygonSides (Inner.mk 0 0 4 4 (InnerBall.mk 0 0 0 0 6 990) None) <= 20)
    by (cbn [Inner.polygonSides]; lra).
  split; [exact H20|].
  exact (proj2 (@inner_side_count
                  (BallSim.mk 0 0 0 0 10 900 1 0 1
                     (Some (Inner.mk 0 0 4 4 (InnerBall.mk 0 0 0 0 6 990) None)))
                  (Inner.mk 0 0 4 4 (InnerBall.mk 0 0 0 0 6 990) None) 0 eq_refl H20)
               [0] [1]).
Defined.

(** C6 (counterexample).  The body built with radius 1, nested depth 17
    and maximum depth 18 has an inner polygon of [max(3, 4 + 17) = 21]
    sides around a ball of radius 6 that covers it; the first call of
    [updateInner] reports a hit and leaves 20 sides. *)
Lemma updateInner_decreases_above_cap :
  let body := new 0 0 0 0 (Options.mk (Some 1) None None (Some 17) (Some 18)) (1 / 2) (1 / 2) in
  innerSides body = 21 /\
  fst (updateInner body 0) = true /\
  innerSides (snd (updateInner body 0)) = 20.
Proof.
  cbv zeta.
  set (body := new 0 0 0 0 (Options.mk (Some 1) None None (Some 17) (Some 18)) (1 / 2) (1 / 2)).
  set (ip := Inner.mk 0 0 (1 * (42 / 100)) 21
               (InnerBall.mk (- 1 * (12 / 100)) (- 1 * (14 / 100))
                  ((1 / 2 - 5 / 10) * 40) ((1 / 2 - 5 / 10) * 40) 6 (800 * (11 / 10)))
               None).
  assert (Ei : inner body = Some ip).
  { subst body ip. unfold new. cbn [orElse nullish Options.radius Options.gravity
      Options.friction Options.nestedDepth Options.maxNestedDepth inner]. js_R. unfold dec. js_R.
    rewrite (Rtruthy_true 1) by lra. rewrite (Rtruthy_orElse 17).
    rewrite Rltb_true by lra.
    rewrite (Rmax_right 3 (4 + 17)) by lra. rewrite (Rmax_left 6 (1 * (22 / 100))) by lra.
    do 2 f_equal. lra. }
  assert (Eg : gravity body = 800) by reflexivity.
  assert (Hhit : fst (updateInner body 0) = true).
  { rewrite (updateInner_fst body ip 0 Ei). cbv zeta.
    match goal with
    | |- match fst (Polygon.collideCircle ?q ?x ?y ?r) with _ => _ end = _ =>
        pose proof (@collideCircle_hit_covering q x y r) as H
    end.
    destruct (fst (Polygon.collideCircle _ _ _ _)); [reflexivity|exfalso].
    apply H; [apply constructed_representation; constructor | | reflexivity].
    subst ip. cbn [Inner.ball Inner.cx Inner.cy Inner.radius Inner.polygonSides
                   InnerBall.x InnerBall.y InnerBall.vx InnerBall.vy InnerBall.radius
                   Polygon.new Polygon.updateVertices Polygon.center Polygon.cx Polygon.cy
                   Polygon.radius].
    rewrite Eg. rewrite (Rabs_pos_eq (1 * (42 / 100))) by lra.
    change (Polygon.center (Polygon.new 0 0 (1 * (42 / 100)) 21 (Rtrigo1.PI / 2)))
      with (Vec.mk 0 0).
    assert (distance
              (Vec.mk (- 1 * (12 / 100) + (1 / 2 - 5 / 10) * 40 * 0)
                      (- 1 * (14 / 100) + ((1 / 2 - 5 / 10) * 40 + 800 * (5 / 10) * 0) * 0))
              (Vec.mk 0 0) <= 1); [|lra].
    apply distance_le; [lra|]. cbn [Vec.x Vec.y]. lra. }
  split; [unfold innerSides; rewrite Ei; reflexivity|]. split; [exact Hhit|].
  rewrite updateInner_sides, Ei, Hhit. unfold innerSides. rewrite Ei.
  unfold ip. cbn [Inner.polygonSides]. unfold Rmin. destruct (Rle_dec 20 (21 + 1)); lra.
Qed.
End InnerGrowth.

(** * Further properties *)

(** ** The closest point on a segment *)

Section ClosestPointLaws.
Variables ax ay bx by_ : R.
Hypothesis Hab : Vec.mk ax ay <> Vec.mk bx by_.

Lemma segment_length_pos : 0 < (bx - ax) * (bx - ax) + (by_ - ay) * (by_ - ay).
Proof.
  destruct (Req_dec ax bx) as [Hx|Hx]; destruct (Req_dec ay by_) as [Hy|Hy].
  - subst. contradiction Hab; reflexivity.
  - assert (0 < (by_ - ay) * (by_ - ay)) by nra. nra.
  - assert (0 < (bx - ax) * (bx - ax)) by nra. nra.
  - assert (0 < (bx - ax) * (bx - ax)) by nra. nra.
Qed.

(** X1.  On a segment with distinct endpoints [closestPointOnSegment] is
    idempotent: asked about its own result it returns it again, and more
    generally every point of the segment is returned as it is. *)
Theorem closestPointOnSegment_fixes_segment (px py : R) (q : Vec.t R) :
  onSegment (Vec.mk ax ay) (Vec.mk bx by_) q ->
  Polygon.closestPointOnSegment (Vec.x q) (Vec.y q) ax ay bx by_ = q /\
  let cp := Polygon.closestPointOnSegment px py ax ay bx by_ in
  Polygon.closestPointOnSegment (Vec.x cp) (Vec.y cp) ax ay bx by_ = cp.
Proof.
  assert (Hfix : forall q, onSegment (Vec.mk ax ay) (Vec.mk bx by_) q ->
                           Polygon.closestPointOnSegment (Vec.x q) (Vec.y q) ax ay bx by_ = q).
  { clear q. intros q (s & Hs & ->). cbn [Vec.x Vec.y].
    pose proof segment_length_pos as Hc2.
    destruct (closestPointOnSegment_param (ax + s * (bx - ax)) (ay + s * (by_ - ay))
                ax ay bx by_) as (t & Ht & -> & Hcase).
    cbv zeta in Hcase. specialize (Hcase Hc2).
    set (c2 := (bx - ax) * (bx - ax) + (by_ - ay) * (by_ - ay)) in *.
    replace ((bx - ax) * (ax + s * (bx - ax) - ax) + (by_ - ay) * (ay + s * (by_ - ay) - ay))
      with (s * c2) in Hcase by (subst c2; ring).
    assert (Ets : t = s).
    { destruct Hcase as [[-> C]|[[-> C]|C]].
      - assert (0 <= s * c2) by (apply Rmult_le_pos; lra).
        destruct (Req_dec s 0) as [->|Hs0]; [reflexivity|].
        assert (0 < s * c2) by (apply Rmult_lt_0_compat; lra). lra.
      - destruct (Req_dec s 1) as [->|Hs1]; [reflexivity|].
        assert (0 < (1 - s) * c2) by (apply Rmult_lt_0_compat; lra). lra.
      - apply (Rmult_eq_reg_r c2); lra. }
    subst t. f_equal; ring. }
  intros Hq. split; [apply Hfix; exact Hq|].
  cbv zeta. apply Hfix. apply closestPointOnSegment_onSegment.
Qed.

(** X2.  On a segment from A to B with distinct endpoints, with
    [c1 = (P - A) . (B - A)] and [c2 = |B - A|^2]: a point P whose
    projection falls before A ([c1 <= 0]) yields A, one whose projection
    falls beyond B ([c2 <= c1]) yields B, and in between the result is the
    orthogonal projection of P on the line, [A + (c1 / c2) (B - A)], the
    foot of the perpendicular from P. *)
Theorem closestPointOnSegment_cases (px py : R) :
  let c1 := (bx - ax) * (px - ax) + (by_ - ay) * (py - ay) in
  let c2 := (bx - ax) * (bx - ax) + (by_ - ay) * (by_ - ay) in
  let cp := Polygon.closestPointOnSegment px py ax ay bx by_ in
  (c1 <= 0 -> cp = Vec.mk ax ay) /\
  (c2 <= c1 -> cp = Vec.mk bx by_) /\
  (0 <= c1 <= c2 ->
     cp = Vec.mk (ax + c1 / c2 * (bx - ax)) (ay + c1 / c2 * (by_ - ay)) /\
     (px - Vec.x cp) * (bx - ax) + (py - Vec.y cp) * (by_ - ay) = 0).
Proof.
  intros c1 c2 cp. pose proof segment_length_pos as Hc2. fold c2 in Hc2.
  destruct (closestPointOnSegment_param px py ax ay bx by_) as (t & Ht & E & Hcase).
  cbv zeta in Hcase. fold c1 c2 in Hcase. specialize (Hcase Hc2).
  assert (Hq : c1 / c2 * c2 = c1) by (field; lra).
  subst cp. rewrite E. clear E.
  split; [|split].
  - intros H1. assert (t = 0); [|subst t; f_equal; ring].
    destruct Hcase as [[-> _]|[[-> C]|C]]; [reflexivity|lra|].
    destruct (Req_dec t 0) as [|Hne]; [assumption|].
    assert (0 < t * c2) by (apply Rmult_lt_0_compat; lra). lra.
  - intros H1. assert (t = 1); [|subst t; f_equal; ring].
    destruct Hcase as [[-> C]|[[-> _]|C]]; [lra|reflexivity|].
    destruct (Req_dec t 1) as [|Hne]; [assumption|].
    assert (0 < (1 - t) * c2) by (apply Rmult_lt_0_compat; lra). lra.
  - intros [H0 H1].
    assert (Et : t = c1 / c2).
    { apply (Rmult_eq_reg_r c2); [|lra]. rewrite Hq.
      destruct Hcase as [[-> C]|[[-> C]|C]]; lra. }
    subst t. cbn [Vec.x Vec.y]. split; [f_equal; ring|].
    replace ((px - (ax + (bx - ax) * (c1 / c2))) * (bx - ax)
             + (py - (ay + (by_ - ay) * (c1 / c2))) * (by_ - ay))
      with (c1 - c1 / c2 * c2) by (subst c1 c2; ring).
    lra.
Qed.
End ClosestPointLaws.

Lemma closestPointOnSegment_fixes_segment_witness :
  onSegment (Vec.mk 0 0) (Vec.mk 4 0) (Vec.mk 1 0) /\
  Polygon.closestPointOnSegment (num := R) 1 0 0 0 4 0 = Vec.mk 1 0.
Proof.
  assert (Hne : Vec.mk 0 0 <> Vec.mk 4 0 :> Vec.t R) by (intros E; injection E; lra).
  assert (Hon : onSegment (Vec.mk 0 0) (Vec.mk 4 0) (Vec.mk 1 0)).
  { exists (1 / 4). split; [lra|]. cbn [Vec.x Vec.y]. f_equal; lra. }
  split; [exact Hon|].
  exact (proj1 (@closestPointOnSegment_fixes_segment 0 0 4 0 Hne 0 0 (Vec.mk 1 0) Hon)).
Defined.

Lemma closestPointOnSegment_cases_witness :
  Vec.mk 0 0 <> Vec.mk 4 0 :> Vec.t R /\
  Polygon.closestPointOnSegment (num := R) (-1) 2 0 0 4 0 = Vec.mk 0 0.
Proof.
  assert (Hne : Vec.mk 0 0 <> Vec.mk 4 0 :> Vec.t R) by (intros E; injection E; lra).
  split; [exact Hne|].
  apply (proj1 (@closestPointOnSegment_cases 0 0 4 0 Hne (-1) 2)). lra.
Defined.

(** ** The shape of a polygon *)

Lemma distance_eq (a b : Vec.t R) (k : R) :
  0 <= k ->
  (Vec.x a - Vec.x b) * (Vec.x a - Vec.x b) + (Vec.y a - Vec.y b) * (Vec.y a - Vec.y b)
    = k * k ->
  distance a b = k.
Proof.
  intros Hk E. unfold distance. rewrite E. apply sqrt_square. exact Hk.
Qed.

Lemma constructed_updateVertices_eq (p : Polygon.t) :
  constructed p -> exists q, p = Polygon.updateVertices q /\ (3 <= Polygon.sides q)%Z.
Proof.
  intros C. pose proof (constructed_sides p C) as H3.
  destruct C; eexists; (split; [reflexivity|]); cbn [Polygon.sides]; js_R;
    try lia; try (apply constructed_sides; assumption).
Qed.

(** X3.  The vertices of a polygon are those of a regular polygon: each
    of them is at distance |radius| from the center, and all edges, the
    closing one included, have the same length
    [2 |radius| sin(pi / sideCount)]. *)
Theorem polygon_is_regular (p : Polygon.t) :
  constructed p ->
  let vs := Polygon.vertices p in
  (forall i, (i < length vs)%nat ->
     distance (Polygon.vertex vs i) (Polygon.center p) = Rabs (Polygon.radius p)) /\
  (forall i, (i < length vs)%nat ->
     distance (edgeStart vs i) (edgeEnd vs i)
       = 2 * Rabs (Polygon.radius p) * Rtrigo_def.sin (Rtrigo1.PI / IZR (Polygon.sides p))).
Proof.
  intros C vs. pose proof (constructed_representation p C) as Hrep. subst vs.
  pose proof (regular_half_angle p Hrep) as [Hlo Hhi]. pose proof PI_RGT_0 as Hpi.
  assert (Hsin : 0 < Rtrigo_def.sin (Rtrigo1.PI / IZR (Polygon.sides p)))
    by (apply sin_gt_0; lra).
  split; intros i Hi.
  - rewrite (regular_vertex p Hrep i Hi). apply distance_eq; [apply Rabs_pos|].
    unfold regularVertex. cbn [Vec.x Vec.y Polygon.center].
    match goal with |- context [Rtrigo_def.cos ?t] => set (ta := t) end.
    pose proof (sin2_cos2 ta) as E. unfold Rsqr in E.
    replace (Rabs (Polygon.radius p) * Rabs (Polygon.radius p))
      with (Polygon.radius p * Polygon.radius p)
      by (rewrite <- Rabs_mult; symmetry; apply Rabs_pos_eq; apply Rle_0_sqr).
    replace ((Polygon.cx p + Polygon.radius p * Rtrigo_def.cos ta - Polygon.cx p)
             * (Polygon.cx p + Polygon.radius p * Rtrigo_def.cos ta - Polygon.cx p)
             + (Polygon.cy p + Polygon.radius p * Rtrigo_def.sin ta - Polygon.cy p)
               * (Polygon.cy p + Polygon.radius p * Rtrigo_def.sin ta - Polygon.cy p))
      with (Polygon.radius p * Polygon.radius p
            * (Rtrigo_def.sin ta * Rtrigo_def.sin ta + Rtrigo_def.cos ta * Rtrigo_def.cos ta))
      by ring.
    rewrite E. ring.
  - rewrite (regular_edgeStart p Hrep i Hi), (regular_edgeEnd p Hrep i Hi).
    apply distance_eq.
    { apply Rmult_le_pos; [|lra]. apply Rmult_le_pos; [lra|apply Rabs_pos]. }
    pose proof (regular_step p Hrep i Hi) as Hstep.
    rewrite cos_minus, (regular_cos_step p Hrep) in Hstep.
    unfold regularVertex. cbn [Vec.x Vec.y].
    fold (vertexAngle p i). fold (vertexAngle p ((i + 1) mod length (Polygon.vertices p))).
    set (ta := vertexAngle p i) in *.
    set (tb := vertexAngle p ((i + 1) mod length (Polygon.vertices p))) in *.
    pose proof (sin2_cos2 ta) as Ea. pose proof (sin2_cos2 tb) as Eb.
    pose proof (sin2_cos2 (Rtrigo1.PI / IZR (Polygon.sides p))) as Eh.
    unfold Rsqr in Ea, Eb, Eh.
    set (k := Rtrigo_def.cos (Rtrigo1.PI / IZR (Polygon.sides p))) in *.
    set (sh := Rtrigo_def.sin (Rtrigo1.PI / IZR (Polygon.sides p))) in *.
    set (ca := Rtrigo_def.cos ta) in *. set (sa := Rtrigo_def.sin ta) in *.
    set (cb := Rtrigo_def.cos tb) in *. set (sb := Rtrigo_def.sin tb) in *.
    set (R0 := Polygon.radius p).
    replace (2 * Rabs R0 * sh * (2 * Rabs R0 * sh))
      with (4 * (Rabs R0 * Rabs R0) * (sh * sh)) by ring.
    replace (Rabs R0 * Rabs R0) with (R0 * R0)
      by (rewrite <- Rabs_mult; symmetry; apply Rabs_pos_eq; apply Rle_0_sqr).
    replace ((Polygon.cx p + R0 * ca - (Polygon.cx p + R0 * cb))
             * (Polygon.cx p + R0 * ca - (Polygon.cx p + R0 * cb))
             + (Polygon.cy p + R0 * sa - (Polygon.cy p + R0 * sb))
               * (Polygon.cy p + R0 * sa - (Polygon.cy p + R0 * sb)))
      with (R0 * R0 * ((sa * sa + ca * ca) + (sb * sb + cb * cb) - 2 * (cb * ca + sb * sa)))
      by ring.
    rewrite Ea, Eb, Hstep.
    replace (sh * sh) with (1 - k * k) by lra. ring.
Qed.

Lemma polygon_is_regular_witness :
  let p := Polygon.new (num := R) 0 0 100 6 0 in
  distance (Polygon.vertex (Polygon.vertices p) 0) (Polygon.center p)
    = Rabs (Polygon.radius p).
Proof.
  cbv zeta.
  apply (proj1 (polygon_is_regular _ (constructed_new 0 0 100 6 0))).
  destruct (constructed_representation _ (constructed_new 0 0 100 6 0)) as (H3 & Hl & _).
  lia.
Defined.

(** X4.  A polygon is determined by its five parameters: building a new
    polygon from the parameters of one obtained through the constructor
    and the setters gives the same polygon back, vertex list included.
    So [updateVertices] on it changes nothing (the second call in
    [update] after [setSides] is redundant), a setter called with the
    value already stored changes nothing, a repeated setter keeps the last
    value only, and setters of different parameters commute. *)
Theorem polygon_determined_by_parameters (p : Polygon.t) :
  constructed p ->
  Polygon.new (Polygon.cx p) (Polygon.cy p) (Polygon.radius p) (IZR (Polygon.sides p))
              (Polygon.rotation p) = p /\
  Polygon.updateVertices p = p /\
  Polygon.setSides p (IZR (Polygon.sides p)) = p /\
  Polygon.setRadius p (Polygon.radius p) = p /\
  Polygon.setCenter p (Polygon.cx p) (Polygon.cy p) = p /\
  (forall n1 n2, Polygon.setSides (Polygon.setSides p n1) n2 = Polygon.setSides p n2) /\
  (forall r1 r2, Polygon.setRadius (Polygon.setRadius p r1) r2 = Polygon.setRadius p r2) /\
  (forall n r, Polygon.setRadius (Polygon.setSides p n) r
               = Polygon.setSides (Polygon.setRadius p r) n) /\
  (forall n x y, Polygon.setCenter (Polygon.setSides p n) x y
                 = Polygon.setSides (Polygon.setCenter p x y) n).
Proof.
  intros C. destruct (constructed_updateVertices_eq p C) as (q & -> & H3).
  assert (Hmax : Z.max 3 (Zfloor (IZR (Polygon.sides q))) = Polygon.sides q)
    by (rewrite ZfloorZ; lia).
  unfold Polygon.new, Polygon.setSides, Polygon.setRadius, Polygon.setCenter,
    Polygon.updateVertices.
  cbn [Polygon.cx Polygon.cy Polygon.radius Polygon.sides Polygon.rotation Polygon.vertices].
  js_R. rewrite Hmax. repeat split; reflexivity.
Qed.

Lemma polygon_determined_by_parameters_witness :
  let p := Polygon.new (num := R) 0 0 100 6 0 in
  Polygon.updateVertices p = p.
Proof.
  exact (proj1 (proj2 (polygon_determined_by_parameters _ (constructed_new 0 0 100 6 0)))).
Defined.

(** ** Vectors in the plane *)

(** The difference of two distinct points has positive square. *)
Lemma vsub_dot_pos (a b : Vec.t R) : a <> b -> 0 < dot (vsub a b) (vsub a b).
Proof.
  intros Hne. destruct a as [ax ay], b as [bx by_]. unfold dot, vsub. cbn [Vec.x Vec.y].
  destruct (Req_dec ax bx) as [Hx|Hx]; destruct (Req_dec ay by_) as [Hy|Hy].
  - subst. contradiction Hne; reflexivity.
  - assert (0 < (ay - by_) * (ay - by_)) by nra.
    pose proof (Rle_0_sqr (ax - bx)) as H0. unfold Rsqr in H0. lra.
  - assert (0 < (ax - bx) * (ax - bx)) by nra.
    pose proof (Rle_0_sqr (ay - by_)) as H0. unfold Rsqr in H0. lra.
  - assert (0 < (ax - bx) * (ax - bx)) by nra.
    pose proof (Rle_0_sqr (ay - by_)) as H0. unfold Rsqr in H0. lra.
Qed.

(** A vector [w = q - c] of length [a] and a unit vector [n], both
    perpendicular to a non-zero vector [e] and not pointing apart, are
    aligned: [q = c + a n]. *)
Lemma along_unit_normal (w n e : Vec.t R) (a : R) (q c : Vec.t R) :
  w = vsub q c ->
  unitLength n ->
  dot n e = 0 ->
  dot w e = 0 ->
  0 < dot e e ->
  0 <= dot w n ->
  0 <= a ->
  dot w w = a * a ->
  q = Vec.mk (Vec.x c + a * Vec.x n) (Vec.y c + a * Vec.y n).
Proof.
  intros -> Hunit Hne Hwe He Hwn Ha Hww.
  destruct q as [qx qy], c as [cx cy], n as [nx ny], e as [ex ey].
  unfold unitLength, dot, vsub in *. cbn [Vec.x Vec.y] in *.
  set (wx := qx - cx) in *. set (wy := qy - cy) in *.
  assert (Hcross : wx * ny - wy * nx = 0).
  { assert (E : (wx * ny - wy * nx) * (ex * ex + ey * ey)
                = (wx * ex + wy * ey) * (ex * ny - ey * nx)
                  - (nx * ex + ny * ey) * (ex * wy - ey * wx)) by ring.
    rewrite Hwe, Hne in E. 
    apply (Rmult_eq_reg_r (ex * ex + ey * ey)); lra. }
  assert (Hsq : (wx * nx + wy * ny) * (wx * nx + wy * ny) = a * a).
  { rewrite <- Hww.
    replace ((wx * nx + wy * ny) * (wx * nx + wy * ny))
      with ((wx * wx + wy * wy) * (nx * nx + ny * ny)
            - (wx * ny - wy * nx) * (wx * ny - wy * nx)) by ring.
    rewrite Hunit, Hcross. ring. }
  assert (Ewn : wx * nx + wy * ny = a).
  { assert (E : (wx * nx + wy * ny - a) * (wx * nx + wy * ny + a) = 0) by (ring_simplify; lra).
    apply Rmult_integral in E. destruct E as [E|E]; [lra|].
    assert (a = 0) by lra. lra. }
  assert (Ex : wx = a * nx).
  { rewrite <- Ewn.
    replace ((wx * nx + wy * ny) * nx) with (wx * (nx * nx + ny * ny) - ny * (wx * ny - wy * nx))
      by ring.
    rewrite Hunit, Hcross. ring. }
  assert (Ey : wy = a * ny).
  { rewrite <- Ewn.
    replace ((wx * nx + wy * ny) * ny) with (wy * (nx * nx + ny * ny) + nx * (wx * ny - wy * nx))
      by ring.
    rewrite Hunit, Hcross. ring. }
  f_equal; [subst wx|subst wy]; lra.
Qed.

(** ** A circle at the center of the polygon *)

Section CenteredCircle.
Variable p : @Polygon.t R.
Hypothesis Hrep : representation p.
Hypothesis HR : 0 < Polygon.radius p.

(** Seen from the center, the closest point of every edge is its midpoint,
    at the distance of the apothem. *)
Lemma center_edge (i : nat) :
  (i < length (Polygon.vertices p))%nat ->
  let vs := Polygon.vertices p in
  edgeClosest vs (Polygon.center p) i
    = Vec.mk ((Vec.x (edgeStart vs i) + Vec.x (edgeEnd vs i)) / 2)
             ((Vec.y (edgeStart vs i) + Vec.y (edgeEnd vs i)) / 2) /\
  edgeDistance vs (Polygon.center p) i = apothem p.
Proof.
  intros Hi vs. subst vs.
  pose proof (regular_cos_half p Hrep) as [Hk0 Hk1].
  pose proof (regular_step p Hrep i Hi) as Hstep.
  rewrite cos_minus, (regular_cos_step p Hrep) in Hstep.
  pose proof (regular_line_sqr p Hrep i (1 / 2) Hi) as Hsqr. cbv zeta in Hsqr.
  unfold edgeDistance, edgeClosest.
  rewrite (regular_edgeStart p Hrep i Hi), (regular_edgeEnd p Hrep i Hi).
  destruct (closestPointOnSegment_param (Vec.x (Polygon.center p)) (Vec.y (Polygon.center p))
              (Vec.x (regularVertex p i)) (Vec.y (regularVertex p i))
              (Vec.x (regularVertex p ((i + 1) mod length (Polygon.vertices p))))
              (Vec.y (regularVertex p ((i + 1) mod length (Polygon.vertices p)))))
    as (t & Ht & -> & Hcase).
  cbv zeta in Hcase. unfold regularVertex in *. cbn [Vec.x Vec.y Polygon.center] in *.
  fold (vertexAngle p i) in *.
  fold (vertexAngle p ((i + 1) mod length (Polygon.vertices p))) in *.
  set (ta := vertexAngle p i) in *.
  set (tb := vertexAngle p ((i + 1) mod length (Polygon.vertices p))) in *.
  pose proof (sin2_cos2 ta) as Ea. pose proof (sin2_cos2 tb) as Eb. unfold Rsqr in Ea, Eb.
  set (k := Rtrigo_def.cos (Rtrigo1.PI / IZR (Polygon.sides p))) in *.
  set (ca := Rtrigo_def.cos ta) in *. set (sa := Rtrigo_def.sin ta) in *.
  set (cb := Rtrigo_def.cos tb) in *. set (sb := Rtrigo_def.sin tb) in *.
  set (R0 := Polygon.radius p) in *. set (x0 := Polygon.cx p) in *.
  set (y0 := Polygon.cy p) in *.
  assert (HRR : 0 < R0 * R0) by (apply Rmult_lt_0_compat; exact HR).
  assert (Hkk : k * k < 1) by nra.
  assert (Ec2 : (x0 + R0 * cb - (x0 + R0 * ca)) * (x0 + R0 * cb - (x0 + R0 * ca))
                + (y0 + R0 * sb - (y0 + R0 * sa)) * (y0 + R0 * sb - (y0 + R0 * sa))
                = 4 * (R0 * R0) * (1 - k * k)).
  { replace ((x0 + R0 * cb - (x0 + R0 * ca)) * (x0 + R0 * cb - (x0 + R0 * ca))
             + (y0 + R0 * sb - (y0 + R0 * sa)) * (y0 + R0 * sb - (y0 + R0 * sa)))
      with (R0 * R0 * ((sa * sa + ca * ca) + (sb * sb + cb * cb) - 2 * (cb * ca + sb * sa)))
      by ring.
    rewrite Ea, Eb, Hstep. ring. }
  assert (Ec1 : (x0 + R0 * cb - (x0 + R0 * ca)) * (x0 - (x0 + R0 * ca))
                + (y0 + R0 * sb - (y0 + R0 * sa)) * (y0 - (y0 + R0 * sa))
                = 2 * (R0 * R0) * (1 - k * k)).
  { replace ((x0 + R0 * cb - (x0 + R0 * ca)) * (x0 - (x0 + R0 * ca))
             + (y0 + R0 * sb - (y0 + R0 * sa)) * (y0 - (y0 + R0 * sa)))
      with (R0 * R0 * ((sa * sa + ca * ca) - (cb * ca + sb * sa))) by ring.
    rewrite Ea, Hstep. ring. }
  rewrite Ec1, Ec2 in Hcase.
  assert (Hpos : 0 < (R0 * R0) * (1 - k * k)) by (apply Rmult_lt_0_compat; lra).
  assert (Et : t = 1 / 2).
  { destruct Hcase as [[_ C]|[[_ C]|C]]; [lra|lra|lra|].
    apply (Rmult_eq_reg_r (4 * (R0 * R0) * (1 - k * k))); lra. }
  subst t. split; [f_equal; field|].
  apply distance_eq; [unfold apothem; fold R0 k; apply Rmult_le_pos; lra|].
  cbn [Vec.x Vec.y Polygon.center]. fold x0 y0. unfold apothem. fold R0 k.
  match goal with
  | |- ?a * ?a + ?b * ?b = _ =>
      replace (a * a + b * b) with ((- a) * (- a) + (- b) * (- b)) by ring
  end.
  match type of Hsqr with
  | ?u * ?u + ?v * ?v = _ =>
      match goal with
      | |- ?a * ?a + ?b * ?b = _ =>
          replace a with u by ring; replace b with v by ring
      end
  end.
  rewrite Hsqr. field.
Qed.

(** X5.  For a circle centered at the center of a regular polygon of
    positive radius, every edge is at the distance of the apothem:
    [collideCircle] reports a hit exactly when [apothem <= r + 1e-4], and
    then at the midpoint of the edge it reports, with penetration
    [r - apothem] and with the normal pointing from the center to that
    midpoint: contact = center + apothem * normal.  Which of the equally
    near edges is reported is not stated: it depends on the last bits of
    the computed distances. *)
Theorem collideCircle_at_center (r : R) :
  let vs := Polygon.vertices p in
  let res := fst (Polygon.collideCircle p (Polygon.cx p) (Polygon.cy p) r) in
  (r + 1 / 10000 < apothem p -> res = None) /\
  (apothem p <= r + 1 / 10000 ->
   exists col, res = Some col /\
     let i := Polygon.Collision.edgeIndex col in
     let n := Polygon.Collision.normal col in
     (i < length vs)%nat /\
     Polygon.Collision.penetration col = r - apothem p /\
     Polygon.Collision.pt col
       = Vec.mk ((Vec.x (edgeStart vs i) + Vec.x (edgeEnd vs i)) / 2)
                ((Vec.y (edgeStart vs i) + Vec.y (edgeEnd vs i)) / 2) /\
     Polygon.Collision.pt col
       = Vec.mk (Polygon.cx p + apothem p * Vec.x n)
                (Polygon.cy p + apothem p * Vec.y n)).
Proof.
  intros vs res. subst vs res.
  assert (Hn : (1 <= length (Polygon.vertices p))%nat).
  { destruct Hrep as (H3 & Hl & _). lia. }
  destruct (collideCircle_result p (Polygon.cx p) (Polygon.cy p) r Hn)
    as (i & d & (Hi & Hd & _) & Hres).
  change (Vec.mk (Polygon.cx p) (Polygon.cy p)) with (Polygon.center p) in *.
  pose proof (center_edge i Hi) as [Emid Ei]. cbv zeta in Emid, Ei.
  rewrite Ei in Hd. subst d.
  destruct (fst (Polygon.collideCircle p (Polygon.cx p) (Polygon.cy p) r)) as [col|];
    [|split; [reflexivity|lra]].
  destruct Hres as (Hle & Hidx & Hpt & Hpen & Hnormal). split; [lra|].
  intros _. exists col. split; [reflexivity|]. cbv zeta. rewrite Hidx.
  split; [exact Hi|]. split; [exact Hpen|]. split; [rewrite Hpt; exact Emid|].
  assert (Hne : edgeStart (Polygon.vertices p) i <> edgeEnd (Polygon.vertices p) i).
  { apply (regular_nondegenerate p Hrep); [lra | exact Hi]. }
  destruct (Hnormal Hne) as (Hn' & Hunit & Hdot). clear Hnormal.
  pose proof (regular_apothem_pos p Hrep HR) as Hap.
  apply (along_unit_normal
           (vsub (Polygon.Collision.pt col) (Polygon.center p))
           (Polygon.Collision.normal col)
           (vsub (edgeEnd (Polygon.vertices p) i) (edgeStart (Polygon.vertices p) i))
           (apothem p) (Polygon.Collision.pt col) (Polygon.center p)).
  - reflexivity.
  - exact Hunit.
  - (* the normal is perpendicular to the edge *)
    assert (Hl : 0 < dot (vsub (edgeEnd (Polygon.vertices p) i)
                               (edgeStart (Polygon.vertices p) i))
                         (vsub (edgeEnd (Polygon.vertices p) i)
                               (edgeStart (Polygon.vertices p) i))).
    { apply vsub_dot_pos. intros E. apply Hne. symmetry. exact E. }
    revert Hn' Hl. unfold edgeNormal, dot, vsub, vneg. cbn [Vec.x Vec.y].
    set (ex := Vec.x (edgeEnd (Polygon.vertices p) i)
               - Vec.x (edgeStart (Polygon.vertices p) i)).
    set (ey := Vec.y (edgeEnd (Polygon.vertices p) i)
               - Vec.y (edgeStart (Polygon.vertices p) i)).
    intros Hn' Hl.
    assert (Hsq : 0 < R_sqrt.sqrt (ex * ex + ey * ey)) by (apply sqrt_lt_R0; exact Hl).
    destruct (Rlt_dec _ 0); rewrite Hn'; cbn [Vec.x Vec.y]; field; lra.
  - (* the midpoint seen from the center is perpendicular to the edge *)
    rewrite Hpt, Emid.
    rewrite (regular_edgeStart p Hrep i Hi), (regular_edgeEnd p Hrep i Hi).
    unfold regularVertex, dot, vsub, Polygon.center. cbn [Vec.x Vec.y].
    fold (vertexAngle p i).
    fold (vertexAngle p ((i + 1) mod length (Polygon.vertices p))).
    set (ta := vertexAngle p i).
    set (tb := vertexAngle p ((i + 1) mod length (Polygon.vertices p))).
    pose proof (sin2_cos2 ta) as Ea. pose proof (sin2_cos2 tb) as Eb. unfold Rsqr in Ea, Eb.
    set (ca := Rtrigo_def.cos ta) in *. set (sa := Rtrigo_def.sin ta) in *.
    set (cb := Rtrigo_def.cos tb) in *. set (sb := Rtrigo_def.sin tb) in *.
    set (R0 := Polygon.radius p). set (x0 := Polygon.cx p). set (y0 := Polygon.cy p).
    replace (((x0 + R0 * ca + (x0 + R0 * cb)) / 2 - x0) * (x0 + R0 * cb - (x0 + R0 * ca))
             + ((y0 + R0 * sa + (y0 + R0 * sb)) / 2 - y0) * (y0 + R0 * sb - (y0 + R0 * sa)))
      with (R0 * R0 / 2 * ((sb * sb + cb * cb) - (sa * sa + ca * ca))) by field.
    rewrite Ea, Eb. ring.
  - apply vsub_dot_pos. intros E. apply Hne. symmetry. exact E.
  - exact Hdot.
  - lra.
  - (* the midpoint is at the distance of the apothem *)
    pose proof (distance_sqr (Polygon.center p) (Polygon.Collision.pt col)) as Hsq.
    rewrite Hpt in Hsq at 1 2. unfold edgeDistance in Ei. rewrite Ei in Hsq.
    rewrite Hsq. unfold dot, vsub. cbn [Vec.x Vec.y]. ring.
Qed.
End CenteredCircle.

Lemma collideCircle_at_center_witness :
  let p := Polygon.new (num := R) 0 0 100 6 0 in
  apothem p <= 90 + 1 / 10000 /\
  exists col,
    fst (Polygon.collideCircle p (Polygon.cx p) (Polygon.cy p) 90) = Some col /\
    Polygon.Collision.penetration col = 90 - apothem p /\
    Polygon.Collision.pt col
      = Vec.mk (Polygon.cx p + apothem p * Vec.x (Polygon.Collision.normal col))
               (Polygon.cy p + apothem p * Vec.y (Polygon.Collision.normal col)).
Proof.
  cbv zeta.
  assert (Hrep : representation (Polygon.new (num := R) 0 0 100 6 0))
    by (apply constructed_representation; constructor).
  assert (HR : 0 < Polygon.radius (Polygon.new (num := R) 0 0 100 6 0))
    by (cbn [Polygon.new Polygon.updateVertices Polygon.radius]; lra).
  assert (Hap : apothem (Polygon.new (num := R) 0 0 100 6 0) <= 90 + 1 / 10000).
  { unfold apothem. cbn [Polygon.new Polygon.updateVertices Polygon.radius Polygon.sides].
    js_R. rewrite ZfloorZ. change (Z.max 3 6) with 6%Z. rewrite cos_PI6.
    assert (H3 : 0 <= R_sqrt.sqrt 3) by apply sqrt_pos.
    assert (E3 : R_sqrt.sqrt 3 * R_sqrt.sqrt 3 = 3) by (apply sqrt_sqrt; lra).
    assert (Hlt : R_sqrt.sqrt 3 < 18 / 10) by nra.
    lra. }
  split; [exact Hap|].
  destruct (proj2 (@collideCircle_at_center _ Hrep HR 90) Hap)
    as (col & Hcol & _ & Hpen & _ & Hpt).
  exists col. split; [exact Hcol|]. split; [exact Hpen|exact Hpt].
Defined.

(** ** The radius of the circle *)

(** X6.  [collideCircle] chooses the edge, the contact point and the
    normal without looking at the radius: a circle that hits still hits
    when its radius grows, on the same edge, at the same point, with the
    same normal and with the penetration grown by the same amount; a
    circle that misses still misses when its radius shrinks. *)
Theorem collideCircle_monotone (p : Polygon.t) (cx cy r r' : R) :
  r <= r' ->
  match fst (Polygon.collideCircle p cx cy r) with
  | Some col =>
      exists col', fst (Polygon.collideCircle p cx cy r') = Some col' /\
        Polygon.Collision.edgeIndex col' = Polygon.Collision.edgeIndex col /\
        Polygon.Collision.pt col' = Polygon.Collision.pt col /\
        Polygon.Collision.normal col' = Polygon.Collision.normal col /\
        Polygon.Collision.penetration col'
          = Polygon.Collision.penetration col + (r' - r)
  | None => True
  end /\
  (fst (Polygon.collideCircle p cx cy r') = None ->
   fst (Polygon.collideCircle p cx cy r) = None).
Proof.
  intros Hr. unfold Polygon.collideCircle.
  destruct (fold_left _ _ _) as [best|]; [|split; [exact I|reflexivity]].
  js_R. unfold dec. js_R. unfold Rleb.
  destruct (Rle_dec (Polygon.Best.dist best) (r + 1 / 10000)) as [H1|H1];
    destruct (Rle_dec (Polygon.Best.dist best) (r' + 1 / 10000)) as [H2|H2];
    try lra; cbn [fst]; (split; [|try discriminate; try reflexivity]); try exact I.
  eexists. split; [reflexivity|].
  cbn [Polygon.Collision.edgeIndex Polygon.Collision.pt Polygon.Collision.normal
       Polygon.Collision.penetration].
  repeat split; ring.
Qed.

Lemma collideCircle_monotone_witness :
  let p := Polygon.mk 0 0 1 3 0 [Vec.mk 1 0; Vec.mk 0 1; Vec.mk (-1) (-1)] in
  1 / 10 <= 1 /\
  (fst (Polygon.collideCircle p 0 0 1) = None ->
   fst (Polygon.collideCircle p 0 0 (1 / 10)) = None).
Proof.
  cbv zeta. assert (H : 1 / 10 <= 1) by lra. split; [exact H|].
  exact (proj2 (@collideCircle_monotone
                  (Polygon.mk 0 0 1 3 0 [Vec.mk 1 0; Vec.mk 0 1; Vec.mk (-1) (-1)])
                  0 0 (1 / 10) 1 H)).
Defined.

(** ** The collision response *)

Section CollisionResponse.
Import BallSim.

(** What a hit on a polygon of the class returns: a unit normal and a
    penetration between [-1e-4] and the radius of the circle. *)
Lemma collideCircle_hit_bounds (p : Polygon.t) (cx cy r : R) :
  constructed p ->
  Polygon.radius p <> 0 ->
  match fst (Polygon.collideCircle p cx cy r) with
  | Some col =>
      unitLength (Polygon.Collision.normal col) /\
      - (1 / 10000) <= Polygon.Collision.penetration col <= r
  | None => True
  end.
Proof.
  intros C HR. pose proof (constructed_representation p C) as Hrep.
  assert (Hn : (1 <= length (Polygon.vertices p))%nat).
  { destruct Hrep as (H3 & Hl & _). lia. }
  destruct (collideCircle_result p cx cy r Hn) as (i & d & (Hi & Hd & _) & Hres).
  destruct (fst (Polygon.collideCircle p cx cy r)) as [col|]; [|exact I].
  destruct Hres as (Hle & _ & _ & Hpen & Hnormal).
  specialize (Hnormal (regular_nondegenerate p Hrep HR i Hi)). cbv zeta in Hnormal.
  destruct Hnormal as (_ & Hunit & _). split; [exact Hunit|].
  rewrite Hpen. pose proof (distance_nonneg (Vec.mk cx cy) (edgeClosest (Polygon.vertices p)
                                                              (Vec.mk cx cy) i)) as H0.
  unfold edgeDistance in Hd. lra.
Qed.

Lemma reflect_norm (v n : Vec.t R) :
  unitLength n -> norm (reflect v n) = norm v.
Proof.
  intros U. unfold norm. f_equal. unfold unitLength in U. unfold reflect.
  destruct v as [a b], n as [nx ny]. js_R. cbn [Vec.x Vec.y] in *.
  replace ((a - 2 * (a * nx + b * ny) * nx) * (a - 2 * (a * nx + b * ny) * nx)
           + (b - 2 * (a * nx + b * ny) * ny) * (b - 2 * (a * nx + b * ny) * ny))
    with (a * a + b * b
          + 4 * ((a * nx + b * ny) * (a * nx + b * ny)) * ((nx * nx + ny * ny) - 1)) by ring.
  rewrite U. ring.
Qed.

Lemma damp_norm (v : Vec.t R) : norm (damp v) = 98 / 100 * norm v.
Proof.
  unfold norm, damp. js_R. unfold dec. js_R. cbn [Vec.x Vec.y].
  replace (Vec.x v * (98 / 100) * (Vec.x v * (98 / 100))
           + Vec.y v * (98 / 100) * (Vec.y v * (98 / 100)))
    with ((98 / 100) * (98 / 100) * (Vec.x v * Vec.x v + Vec.y v * Vec.y v)) by ring.
  rewrite sqrt_mult_alt by lra. rewrite sqrt_square by lra. reflexivity.
Qed.

(** X7.  On a polygon of the class with a radius other than 0,
    [handleCollisionWithPolygon] returns true exactly when [collideCircle]
    reports a hit for the ball.  Then the ball is moved along the unit
    normal by [penetration + 0.5], a distance between 0.4999 and
    [radius + 0.5], and its speed after the call is 0.98 times its speed
    before; its radius, gravity, friction, depths and nested state are
    unchanged.  Without a hit the ball is left as it is. *)
Theorem collision_response (ball : BallSim.t R) (polygon : Polygon.t) :
  constructed polygon ->
  Polygon.radius polygon <> 0 ->
  let res := handleCollisionWithPolygon ball polygon in
  let ball' := snd (fst res) in
  match fst (Polygon.collideCircle polygon (x ball) (y ball) (radius ball)) with
  | Some col =>
      let push := Polygon.Collision.penetration col + 1 / 2 in
      fst (fst res) = true /\
      x ball' = x ball + Vec.x (Polygon.Collision.normal col) * push /\
      y ball' = y ball + Vec.y (Polygon.Collision.normal col) * push /\
      distance (position ball') (position ball) = push /\
      1 / 2 - 1 / 10000 <= push <= radius ball + 1 / 2 /\
      norm (velocity ball') = 98 / 100 * norm (velocity ball) /\
      radius ball' = radius ball /\ gravity ball' = gravity ball /\
      friction ball' = friction ball /\ nestedDepth ball' = nestedDepth ball /\
      maxNestedDepth ball' = maxNestedDepth ball /\ inner ball' = inner ball
  | None => res = (false, ball, polygon)
  end.
Proof.
  intros C HR res ball'. subst ball' res.
  pose proof (collideCircle_hit_bounds polygon (x ball) (y ball) (radius ball) C HR) as Hb.
  pose proof (collideCircle_snd polygon (x ball) (y ball) (radius ball)) as Hs.
  unfold handleCollisionWithPolygon.
  destruct (Polygon.collideCircle polygon (x ball) (y ball) (radius ball)) as [[col|] q];
    cbn [fst snd] in *; subst q; [|reflexivity].
  destruct Hb as (Hunit & Hpen). cbv zeta.
  cbn [x y vx vy radius gravity friction nestedDepth maxNestedDepth inner].
  unfold pushOut. js_R. unfold dec. js_R. cbn [Vec.x Vec.y].
  replace (5 / 10) with (1 / 2) by lra.
  set (push := Polygon.Collision.penetration col + 1 / 2).
  assert (Hpush : 1 / 2 - 1 / 10000 <= push <= radius ball + 1 / 2) by (subst push; lra).
  split; [reflexivity|]. split; [reflexivity|]. split; [reflexivity|].
  split.
  { apply distance_eq; [lra|]. unfold position. cbn [x y Vec.x Vec.y].
    unfold unitLength in Hunit.
    set (nx := Vec.x (Polygon.Collision.normal col)) in *.
    set (ny := Vec.y (Polygon.Collision.normal col)) in *.
    replace ((x ball + nx * push - x ball) * (x ball + nx * push - x ball)
             + (y ball + ny * push - y ball) * (y ball + ny * push - y ball))
      with (push * push * (nx * nx + ny * ny)) by ring.
    rewrite Hunit. ring. }
  split; [exact Hpush|].
  split.
  { unfold velocity. cbn [vx vy].
    change (Vec.mk (Vec.x (damp (reflect (Vec.mk (vx ball) (vy ball))
                                          (Polygon.Collision.normal col))))
                   (Vec.y (damp (reflect (Vec.mk (vx ball) (vy ball))
                                          (Polygon.Collision.normal col)))))
      with (damp (reflect (Vec.mk (vx ball) (vy ball)) (Polygon.Collision.normal col))).
    rewrite damp_norm, reflect_norm by exact Hunit. reflexivity. }
  repeat split; reflexivity.
Qed.
End CollisionResponse.

Lemma collision_response_witness :
  let polygon := Polygon.new (num := R) 0 0 100 6 0 in
  let ball := BallSim.mk 0 0 3 4 10 900 1 0 0 None in
  Polygon.radius polygon <> 0 /\
  match fst (Polygon.collideCircle polygon 0 0 10) with
  | Some col => fst (fst (BallSim.handleCollisionWithPolygon ball polygon)) = true
  | None => BallSim.handleCollisionWithPolygon ball polygon = (false, ball, polygon)
  end.
Proof.
  cbv zeta.
  assert (HR : Polygon.radius (Polygon.new (num := R) 0 0 100 6 0) <> 0)
    by (cbn [Polygon.new Polygon.updateVertices Polygon.radius]; lra).
  split; [exact HR|].
  pose proof (@collision_response (BallSim.mk 0 0 3 4 10 900 1 0 0 None)
                (Polygon.new (num := R) 0 0 100 6 0) (constructed_new 0 0 100 6 0) HR) as H.
  cbv zeta in H. cbn [BallSim.x BallSim.y BallSim.radius] in H.
  destruct (fst (Polygon.collideCircle (Polygon.new (num := R) 0 0 100 6 0) 0 0 10));
    [exact (proj1 H) | exact H].
Defined.

(** ** What the nested updates leave alone *)

Section NestedFrame.
Import BallSim App.

Lemma updateInner_frame (b : BallSim.t R) (dt : R) :
  let b' := snd (updateInner b dt) in
  x b' = x b /\ y b' = y b /\ vx b' = vx b /\ vy b' = vy b /\
  radius b' = radius b /\ gravity b' = gravity b /\ friction b' = friction b /\
  nestedDepth b' = nestedDepth b /\ maxNestedDepth b' = maxNestedDepth b /\
  match inner b with
  | None => inner b' = None
  | Some ip =>
      exists ip', inner b' = Some ip' /\
        Inner.cx ip' = Inner.cx ip /\ Inner.cy ip' = Inner.cy ip /\
        Inner.radius ip' = Inner.radius ip /\ Inner.extra ip' = Inner.extra ip /\
        InnerBall.radius (Inner.ball ip') = InnerBall.radius (Inner.ball ip) /\
        InnerBall.gravity (Inner.ball ip') = InnerBall.gravity (Inner.ball ip)
  end.
Proof.
  unfold updateInner. destruct (inner b) as [ip|] eqn:E; cbn zeta.
  - destruct (Polygon.collideCircle _ _ _ _) as [[col|] q];
      cbn [fst snd withInner x y vx vy radius gravity friction nestedDepth maxNestedDepth inner];
      repeat split; eexists; repeat split.
  - cbn [snd]. repeat split. exact E.
Qed.

Lemma stepExtra_radius (b : BallSim.t R) (ip : Inner.t R) (e : Extra.t R) (dt : R) :
  let e' := stepExtra b ip e dt in
  ExtraBall.radius (Extra.ball e') = ExtraBall.radius (Extra.ball e) /\
  (Extra.polygonSides e' = Extra.polygonSides e \/
   Extra.polygonSides e' = Rmin 30 (Extra.polygonSides e + 1)).
Proof.
  unfold stepExtra. destruct (Polygon.collideCircle _ _ _ _) as [[col|] q]; cbn zeta;
    cbn [Extra.ball Extra.polygonSides ExtraBall.radius]; js_R; split; auto.
Qed.

(** X8.  [handleRecursiveUpdates] changes nothing but the nested state:
    the position, velocity, radius, gravity, friction and depths of the
    body are the same after the call.  Within the nested state the center
    and radius of the inner level and the radius and gravity of the inner
    ball are never changed, an inner level is never added or removed, and
    a tier-2 state that exists is never removed and keeps the radius of
    its ball; with the gate closed ([maxNestedDepth <= nestedDepth + 1])
    the tier-2 state is left exactly as it was. *)
Theorem handleRecursiveUpdates_frame (b : BallSim.t R) (dt depth u1 u2 : R) :
  let b' := handleRecursiveUpdates b dt depth u1 u2 in
  x b' = x b /\ y b' = y b /\ vx b' = vx b /\ vy b' = vy b /\
  radius b' = radius b /\ gravity b' = gravity b /\ friction b' = friction b /\
  nestedDepth b' = nestedDepth b /\ maxNestedDepth b' = maxNestedDepth b /\
  match inner b with
  | None => b' = b
  | Some ip =>
      exists ip', inner b' = Some ip' /\
        Inner.cx ip' = Inner.cx ip /\ Inner.cy ip' = Inner.cy ip /\
        Inner.radius ip' = Inner.radius ip /\
        InnerBall.radius (Inner.ball ip') = InnerBall.radius (Inner.ball ip) /\
        InnerBall.gravity (Inner.ball ip') = InnerBall.gravity (Inner.ball ip) /\
        (maxNestedDepth b <= nestedDepth b + 1 -> Inner.extra ip' = Inner.extra ip) /\
        (forall e, Inner.extra ip = Some e ->
           exists e', Inner.extra ip' = Some e' /\
             ExtraBall.radius (Extra.ball e') = ExtraBall.radius (Extra.ball e))
  end.
Proof.
  cbv zeta. rewrite handleRecursiveUpdates_unfold.
  pose proof (updateInner_frame b dt) as F. cbv zeta in F.
  destruct F as (Fx & Fy & Fvx & Fvy & Fr & Fg & Ff & Fd & Fm & Fi).
  destruct (inner b) as [ip|] eqn:E; [|repeat split; reflexivity].
  destruct Fi as (ip1 & E1 & Hcx & Hcy & Hrad & Hex & Hbr & Hbg). rewrite E1.
  unfold Rltb. destruct (Rlt_dec (nestedDepth b + 1) (maxNestedDepth b)) as [Hg|Hg].
  - cbn [withInner x y vx vy radius gravity friction nestedDepth maxNestedDepth inner].
    repeat (split; [assumption|]).
    eexists. split; [reflexivity|].
    unfold updateExtra. cbn [Inner.cx Inner.cy Inner.radius Inner.ball Inner.extra].
    repeat (split; [assumption|]).
    split; [intros Hc; lra|].
    intros e He. rewrite Hex, He. eexists. split; [reflexivity|].
    apply stepExtra_radius.
  - repeat (split; [assumption|]).
    exists ip1. split; [exact E1|]. repeat (split; [assumption|]).
    split; [intros _; exact Hex|].
    intros e He. exists e. split; [congruence|reflexivity].
Qed.
End NestedFrame.

(** ** One update of the driver *)

Section UpdateStep.
Import BallSim App.

Lemma handleRecursiveUpdates_outer (b : BallSim.t R) (dt depth u1 u2 : R) :
  let b' := handleRecursiveUpdates b dt depth u1 u2 in
  x b' = x b /\ y b' = y b /\ vx b' = vx b /\ vy b' = vy b /\
  radius b' = radius b /\ gravity b' = gravity b /\ friction b' = friction b /\
  nestedDepth b' = nestedDepth b /\ maxNestedDepth b' = maxNestedDepth b.
Proof.
  cbv zeta. rewrite handleRecursiveUpdates_unfold.
  pose proof (updateInner_frame b dt) as F. cbv zeta in F.
  destruct F as (Fx & Fy & Fvx & Fvy & Fr & Fg & Ff & Fd & Fm & Fi).
  destruct (inner b) as [ip|]; [|repeat split; reflexivity].
  destruct Fi as (ip1 & E1 & _). rewrite E1.
  destruct (Rltb _ _); repeat split; assumption.
Qed.

(** The ball that [update] hands to [handleRecursiveUpdates]. *)
Lemma update_result (w : World.t R) (b : BallSim.t R) (p : Polygon.t) (dt W H u1 u2 : R) :
  World.ball w = Some b ->
  World.worldPolygon w = Some p ->
  let res := handleCollisionWithPolygon (integrate (applyGravity b dt) dt) p in
  let collided := fst (fst res) in
  let b2 := snd (fst res) in
  let b3 :=
    BallSim.mk (Rmax 0 (Rmin W (x b2))) (Rmax 0 (Rmin H (y b2)))
               (if collided then vx b2 * (98 / 100) else vx b2)
               (if collided then vy b2 * (98 / 100) else vy b2)
               (radius b2) (gravity b2) (friction b2) (nestedDepth b2) (maxNestedDepth b2)
               (inner b2) in
  update w dt W H u1 u2
    = World.mk (Some (if collided
                      then Polygon.updateVertices
                             (Polygon.setSides p (IZR (Polygon.sides p) + 1))
                      else p))
               (Some (handleRecursiveUpdates b3 dt 0 u1 u2))
               (World.lastTime w) (World.maxNestedDepth w).
Proof.
  intros Hb Hp. cbv zeta. unfold update. rewrite Hb, Hp.
  pose proof (handleCollisionWithPolygon_snd (integrate (applyGravity b dt) dt) p) as Hs.
  destruct (handleCollisionWithPolygon (integrate (applyGravity b dt) dt) p) as [[c b2] p'].
  cbn [fst snd] in *. subst p'. destruct c; reflexivity.
Qed.

(** X9.  After every [update] the ball is inside the rectangle of the
    canvas: [0 <= x <= max(0, W)] and [0 <= y <= max(0, H)], whatever the
    timestep, the velocity and the collision did; a ball that the physics
    left inside the rectangle is not moved by the clamp. *)
Theorem update_keeps_ball_on_canvas (w : World.t R) (b : BallSim.t R) (p : Polygon.t)
    (dt W H u1 u2 : R) :
  World.ball w = Some b ->
  World.worldPolygon w = Some p ->
  let b2 := snd (fst (handleCollisionWithPolygon (integrate (applyGravity b dt) dt) p)) in
  exists b', World.ball (update w dt W H u1 u2) = Some b' /\
    0 <= x b' <= Rmax 0 W /\ 0 <= y b' <= Rmax 0 H /\
    (0 <= x b2 <= W -> x b' = x b2) /\
    (0 <= y b2 <= H -> y b' = y b2) /\
    (x b2 < 0 -> x b' = 0) /\ (0 <= W < x b2 -> x b' = W) /\
    (y b2 < 0 -> y b' = 0) /\ (0 <= H < y b2 -> y b' = H).
Proof.
  intros Hb Hp b2. rewrite (update_result w b p dt W H u1 u2 Hb Hp). cbv zeta.
  cbn [World.ball]. eexists. split; [reflexivity|].
  match goal with
  | |- context [handleRecursiveUpdates ?b3 dt 0 u1 u2] =>
      pose proof (handleRecursiveUpdates_outer b3 dt 0 u1 u2) as (Ex & Ey & _);
      cbv zeta in Ex, Ey; cbn [x y] in Ex, Ey
  end.
  fold b2 in Ex, Ey |- *. rewrite Ex, Ey. clear Ex Ey.
  generalize (x b2) (y b2). intros X Y.
  unfold Rmax, Rmin. destruct (Rle_dec W X), (Rle_dec H Y).
  all: repeat split;
    repeat (match goal with |- context [Rle_dec ?a ?c] => destruct (Rle_dec a c) end);
    intros; lra.
Qed.

Lemma update_keeps_ball_on_canvas_witness :
  let p := Polygon.mk 0 0 100 6 0 [] in
  let b := BallSim.mk 0 0 0 0 10 900 1 0 0 None in
  exists b', World.ball (update (World.mk (Some p) (Some b) None 0) 0 800 600 0 0) = Some b' /\
    0 <= x b' <= Rmax 0 800 /\ 0 <= y b' <= Rmax 0 600.
Proof.
  cbv zeta.
  destruct (@update_keeps_ball_on_canvas
              (World.mk (Some (Polygon.mk 0 0 100 6 0 []))
                        (Some (BallSim.mk 0 0 0 0 10 900 1 0 0 None)) None 0)
              _ _ 0 800 600 0 0 eq_refl eq_refl) as (b' & E & Hx & Hy & _).
  exists b'. split; [exact E|]. split; assumption.
Defined.
End UpdateStep.

Section UpdateSpeed.
Import BallSim App.

Lemma handleCollisionWithPolygon_speed (b : BallSim.t R) (p : Polygon.t) :
  constructed p ->
  Polygon.radius p <> 0 ->
  let res := handleCollisionWithPolygon b p in
  if fst (fst res)
  then norm (velocity (snd (fst res))) = 98 / 100 * norm (velocity b)
  else snd (fst res) = b.
Proof.
  intros C HR. cbv zeta.
  pose proof (collideCircle_hit_bounds p (x b) (y b) (radius b) C HR) as Hb.
  unfold handleCollisionWithPolygon.
  destruct (Polygon.collideCircle p (x b) (y b) (radius b)) as [[col|] q];
    cbn [fst snd] in *; [|reflexivity].
  destruct Hb as (Hunit & _). unfold velocity. cbn [vx vy].
  change (Vec.mk (Vec.x (damp (reflect (Vec.mk (vx b) (vy b)) (Polygon.Collision.normal col))))
                 (Vec.y (damp (reflect (Vec.mk (vx b) (vy b)) (Polygon.Collision.normal col)))))
    with (damp (reflect (Vec.mk (vx b) (vy b)) (Polygon.Collision.normal col))).
  rewrite damp_norm, reflect_norm by exact Hunit. reflexivity.
Qed.

(** X10.  On a tick with a collision the driver damps twice: the
    collision response scales the reflected velocity by 0.98 and [update]
    scales it by 0.98 again, so the speed of the ball after the tick is
    0.9604 times its speed after gravity and integration.  On a tick
    without a collision the velocity after gravity and integration is
    kept.  (World polygon of the class, radius other than 0.) *)
Theorem update_damps_twice (w : World.t R) (b : BallSim.t R) (p : Polygon.t)
    (dt W H u1 u2 : R) :
  World.ball w = Some b ->
  World.worldPolygon w = Some p ->
  constructed p ->
  Polygon.radius p <> 0 ->
  let b1 := integrate (applyGravity b dt) dt in
  let collided := fst (fst (handleCollisionWithPolygon b1 p)) in
  exists b', World.ball (update w dt W H u1 u2) = Some b' /\
    (collided = true -> norm (velocity b') = 9604 / 10000 * norm (velocity b1)) /\
    (collided = false -> velocity b' = velocity b1).
Proof.
  intros Hb Hp C HR b1 collided. rewrite (update_result w b p dt W H u1 u2 Hb Hp). cbv zeta.
  cbn [World.ball]. eexists. split; [reflexivity|].
  match goal with
  | |- context [handleRecursiveUpdates ?b3 dt 0 u1 u2] =>
      pose proof (handleRecursiveUpdates_outer b3 dt 0 u1 u2) as (_ & _ & Evx & Evy & _);
      cbv zeta in Evx, Evy; cbn [vx vy] in Evx, Evy
  end.
  fold b1 in Evx, Evy |- *. fold collided in Evx, Evy |- *.
  unfold velocity at 1 3. rewrite Evx, Evy. clear Evx Evy.
  pose proof (handleCollisionWithPolygon_speed b1 p C HR) as Hsp. cbv zeta in Hsp.
  fold collided in Hsp. destruct collided.
  - split; [intros _|discriminate].
    change (Vec.mk (vx (snd (fst (handleCollisionWithPolygon b1 p))) * (98 / 100))
                   (vy (snd (fst (handleCollisionWithPolygon b1 p))) * (98 / 100)))
      with (damp (velocity (snd (fst (handleCollisionWithPolygon b1 p))))).
    rewrite damp_norm, Hsp. lra.
  - split; [discriminate|intros _]. rewrite Hsp. reflexivity.
Qed.

Lemma update_damps_twice_witness :
  let p := Polygon.new (num := R) 0 0 100 6 0 in
  let b := BallSim.mk 0 0 0 0 10 900 1 0 0 None in
  Polygon.radius p <> 0 /\
  exists b', World.ball (update (World.mk (Some p) (Some b) None 0) 0 800 600 0 0) = Some b'.
Proof.
  cbv zeta.
  assert (HR : Polygon.radius (Polygon.new (num := R) 0 0 100 6 0) <> 0)
    by (cbn [Polygon.new Polygon.updateVertices Polygon.radius]; lra).
  split; [exact HR|].
  destruct (@update_damps_twice
              (World.mk (Some (Polygon.new (num := R) 0 0 100 6 0))
                        (Some (BallSim.mk 0 0 0 0 10 900 1 0 0 None)) None 0)
              _ _ 0 800 600 0 0 eq_refl eq_refl (constructed_new 0 0 100 6 0) HR)
    as (b' & E & _).
  exists b'. exact E.
Defined.
End UpdateSpeed.

(** ** Gravity and integration *)

Section Integration.
Import BallSim.

Lemma norm_scale (k : R) (v : Vec.t R) :
  0 <= k -> norm (Vec.mk (Vec.x v * k) (Vec.y v * k)) = k * norm v.
Proof.
  intros Hk. unfold norm. cbn [Vec.x Vec.y].
  replace (Vec.x v * k * (Vec.x v * k) + Vec.y v * k * (Vec.y v * k))
    with (k * k * (Vec.x v * Vec.x v + Vec.y v * Vec.y v)) by ring.
  rewrite sqrt_mult_alt by (apply Rle_0_sqr). rewrite sqrt_square by exact Hk. reflexivity.
Qed.

Lemma norm_nonneg (v : Vec.t R) : 0 <= norm v.
Proof. unfold norm. apply sqrt_pos. Qed.

Lemma Rpower_le_1 (f e : R) : 0 < f <= 1 -> 0 <= e -> Rpower f e <= 1.
Proof.
  intros [Hf0 Hf1] He. unfold Rpower.
  assert (Hln : ln f <= 0).
  { destruct (Req_dec f 1) as [->|Hne]; [rewrite ln_1; lra|].
    left. rewrite <- ln_1. apply ln_increasing; lra. }
  assert (Hle : e * ln f <= 0).
  { replace (e * ln f) with (- (e * - ln f)) by ring.
    assert (0 <= e * - ln f) by (apply Rmult_le_pos; lra). lra. }
  destruct Hle as [Hlt|Heq]; [|rewrite Heq, exp_0; lra].
  left. rewrite <- exp_0. apply exp_increasing. exact Hlt.
Qed.

(** X11.  With a positive friction, [integrate] moves the ball by
    velocity times [dt] and then scales the velocity by
    [friction^(60 dt)].  The damping is independent of how a time span is
    cut into steps: two steps of [dt1] and [dt2] leave the velocity one
    step of [dt1 + dt2] leaves, and likewise two [applyGravity] steps
    equal one.  A step of 0 changes nothing, and with a friction of at
    most 1 and a step that is not negative the speed never grows. *)
Theorem integrate_damping (b : BallSim.t R) (dt dt1 dt2 : R) :
  0 < friction b ->
  position (integrate b dt)
    = Vec.mk (x b + vx b * dt) (y b + vy b * dt) /\
  norm (velocity (integrate b dt)) = Rpower (friction b) (dt * 60) * norm (velocity b) /\
  velocity (integrate (integrate b dt1) dt2) = velocity (integrate b (dt1 + dt2)) /\
  applyGravity (applyGravity b dt1) dt2 = applyGravity b (dt1 + dt2) /\
  integrate b 0 = b /\ applyGravity b 0 = b /\
  (friction b <= 1 -> 0 <= dt -> norm (velocity (integrate b dt)) <= norm (velocity b)).
Proof.
  intros Hf. destruct b as [bx by_ bvx bvy br bg bf bd bm bi].
  unfold integrate, applyGravity, position, velocity.
  cbn [x y vx vy radius gravity friction nestedDepth maxNestedDepth inner] in *. js_R.
  assert (Hpos : forall e, 0 < Rpower bf e) by (intros e; unfold Rpower; apply exp_pos).
  split; [reflexivity|]. split.
  { apply (norm_scale (Rpower bf (dt * 60)) (Vec.mk bvx bvy)). left. apply Hpos. }
  split.
  { replace ((dt1 + dt2) * 60) with (dt1 * 60 + dt2 * 60) by ring.
    rewrite Rpower_plus. f_equal; ring. }
  split; [f_equal; ring|].
  split.
  { replace (0 * 60) with 0 by ring. rewrite Rpower_O by exact Hf. f_equal; ring. }
  split; [f_equal; ring|].
  intros Hf1 Hdt.
  pose proof (norm_scale (Rpower bf (dt * 60)) (Vec.mk bvx bvy) (Rlt_le _ _ (Hpos _))) as Hs.
  cbn [Vec.x Vec.y] in Hs. rewrite Hs.
  pose proof (Rpower_le_1 bf (dt * 60) (conj Hf Hf1) ltac:(lra)) as Hle.
  pose proof (norm_nonneg (Vec.mk bvx bvy)) as Hn.
  rewrite <- (Rmult_1_l (norm (Vec.mk bvx bvy))) at 2.
  apply Rmult_le_compat_r; assumption.
Qed.

Lemma integrate_damping_witness :
  let b := BallSim.mk 0 0 120 30 24 900 (995 / 1000) 0 3 None in
  0 < friction b /\ integrate b 0 = b.
Proof.
  cbv zeta.
  assert (Hf : 0 < friction (BallSim.mk 0 0 120 30 24 900 (995 / 1000) 0 3 None))
    by (cbn [friction]; lra).
  split; [exact Hf|].
  exact (proj1 (proj2 (proj2 (proj2 (proj2
           (@integrate_damping (BallSim.mk 0 0 120 30 24 900 (995 / 1000) 0 3 None)
              0 0 0 Hf)))))).
Defined.
End Integration.

(** ** Frames and the depth slider *)

Section Events.
Import BallSim App.

Lemma update_lastTime (w : World.t R) (dt W H u1 u2 : R) :
  World.lastTime (update w dt W H u1 u2) = World.lastTime w /\
  World.maxNestedDepth (update w dt W H u1 u2) = World.maxNestedDepth w.
Proof.
  unfold update. destruct (World.ball w) as [b|]; [|split; reflexivity].
  destruct (World.worldPolygon w) as [p|]; [|split; reflexivity].
  destruct (handleCollisionWithPolygon _ _) as [[c b2] p']. destruct c; split; reflexivity.
Qed.

(** X12.  [loop] runs one [update] with a timestep of at most 0.033 s and
    records the timestamp of the frame.  On the first frame after [init]
    ([lastTime] is null) the timestep is 0; a recorded timestamp of 0 is
    taken for a missing one and gives a timestep of 0 too; otherwise the
    timestep is [min(0.033, (ts - lastTime) / 1000)], which is negative
    when the timestamps go backwards. *)
Theorem loop_timestep (w : World.t R) (f : Frame.t R) :
  exists dt,
    loop w f
      = update (World.mk (World.worldPolygon w) (World.ball w) (Some (Frame.ts f))
                         (World.maxNestedDepth w))
               dt (Frame.W f) (Frame.H f) (Frame.u1 f) (Frame.u2 f) /\
    dt <= 33 / 1000 /\
    match World.lastTime w with
    | None => dt = 0
    | Some t =>
        (t = 0 -> dt = 0) /\
        (t <> 0 -> dt = Rmin (33 / 1000) ((Frame.ts f - t) / 1000))
    end /\
    World.lastTime (loop w f) = Some (Frame.ts f) /\
    World.maxNestedDepth (loop w f) = World.maxNestedDepth w.
Proof.
  unfold loop. eexists. split; [reflexivity|].
  pose proof (update_lastTime
                (World.mk (World.worldPolygon w) (World.ball w) (Some (Frame.ts f))
                          (World.maxNestedDepth w))) as Hu.
  cbn [World.lastTime World.maxNestedDepth] in Hu.
  js_R. unfold dec. js_R.
  split; [apply Rmin_l|].
  assert (Hzero : Rmin (33 / 1000) ((Frame.ts f - Frame.ts f) / 1000) = 0).
  { replace ((Frame.ts f - Frame.ts f) / 1000) with 0 by field. apply Rmin_right. lra. }
  split.
  - destruct (World.lastTime w) as [t|]; [|exact Hzero].
    unfold Rtruthy. destruct (Req_dec_T t 0) as [Ht|Ht]; split; intros Hc;
      try contradiction; try reflexivity; try exact Hzero.
  - split; apply Hu.
Qed.

(** X13.  The depth slider never discards nested state.  It stores the
    new maximum depth in the world and in the ball and resets the nested
    depth of the ball to 0; an inner level that exists is kept as it is,
    tier-2 state included, even when the new depth is 0; a missing inner
    level is created exactly when the new depth is positive, with 4
    sides, a ball at rest and no tier-2 state.  Position, velocity,
    radius, gravity and friction of the ball, the world polygon and the
    recorded timestamp are not touched. *)
Theorem depthInput_keeps_state (w : World.t R) (value : R) (b : BallSim.t R) :
  World.ball w = Some b ->
  let w' := depthInput w value in
  World.maxNestedDepth w' = value /\
  World.worldPolygon w' = World.worldPolygon w /\
  World.lastTime w' = World.lastTime w /\
  exists b', World.ball w' = Some b' /\
    maxNestedDepth b' = value /\ nestedDepth b' = 0 /\
    position b' = position b /\ velocity b' = velocity b /\
    radius b' = radius b /\ gravity b' = gravity b /\ friction b' = friction b /\
    (forall ip, inner b = Some ip -> inner b' = Some ip) /\
    (inner b = None -> value <= 0 -> inner b' = None) /\
    (inner b = None -> 0 < value ->
     exists ip, inner b' = Some ip /\
       Inner.cx ip = 0 /\ Inner.cy ip = 0 /\ Inner.radius ip = radius b * (42 / 100) /\
       Inner.polygonSides ip = 4 /\ Inner.extra ip = None /\
       InnerBall.x (Inner.ball ip) = - radius b * (12 / 100) /\
       InnerBall.y (Inner.ball ip) = - radius b * (14 / 100) /\
       InnerBall.vx (Inner.ball ip) = 0 /\ InnerBall.vy (Inner.ball ip) = 0 /\
       InnerBall.radius (Inner.ball ip) = Rmax 6 (radius b * (22 / 100)) /\
       InnerBall.gravity (Inner.ball ip) = gravity b * (11 / 10)).
Proof.
  intros Hb w'. subst w'. unfold depthInput. rewrite Hb.
  cbn [World.maxNestedDepth World.worldPolygon World.lastTime World.ball].
  split; [reflexivity|]. split; [reflexivity|]. split; [reflexivity|].
  eexists. split; [reflexivity|].
  cbn [maxNestedDepth nestedDepth radius gravity friction inner]. unfold position, velocity.
  cbn [x y vx vy]. js_R. unfold dec. js_R.
  repeat (split; [reflexivity|]).
  split; [intros ip ->; reflexivity|].
  split.
  - intros -> Hv. rewrite Rltb_false by exact Hv. reflexivity.
  - intros -> Hv. rewrite Rltb_true by exact Hv. eexists. split; [reflexivity|].
    cbn [Inner.cx Inner.cy Inner.radius Inner.polygonSides Inner.extra Inner.ball
         InnerBall.x InnerBall.y InnerBall.vx InnerBall.vy InnerBall.radius InnerBall.gravity].
    rewrite (Rmax_right 3 4) by lra. repeat split; reflexivity.
Qed.

Lemma depthInput_keeps_state_witness :
  let ip := Inner.mk 0 0 4 7 (InnerBall.mk 1 2 3 4 6 990) None in
  let b := BallSim.mk 0 0 0 0 10 900 1 0 3 (Some ip) in
  let w := World.mk None (Some b) None 3 in
  exists b', World.ball (depthInput w 0) = Some b' /\ inner b' = Some ip.
Proof.
  cbv zeta.
  destruct (@depthInput_keeps_state
              (World.mk None
                 (Some (BallSim.mk 0 0 0 0 10 900 1 0 3
                          (Some (Inner.mk 0 0 4 7 (InnerBall.mk 1 2 3 4 6 990) None))))
                 None 3)
              0 _ eq_refl)
    as (_ & _ & _ & b' & E & _ & _ & _ & _ & _ & _ & _ & Hkeep & _).
  exists b'. split; [exact E|]. apply Hkeep. reflexivity.
Defined.

(** X14.  The tier-2 polygon grows like the inner one, with its own cap:
    for a body whose tier-2 side count is at most 30,
    [handleRecursiveUpdates] keeps the tier-2 state, leaves its side count
    alone or sets it to [min(30, count + 1)], and so never decreases it
    and never takes it above 30. *)
Theorem tier2_side_count (b : BallSim.t R) (e : Extra.t R) (dt depth u1 u2 : R) :
  tier2 b = Some e ->
  Extra.polygonSides e <= 30 ->
  exists e', tier2 (handleRecursiveUpdates b dt depth u1 u2) = Some e' /\
    (Extra.polygonSides e' = Extra.polygonSides e \/
     Extra.polygonSides e' = Rmin 30 (Extra.polygonSides e + 1)) /\
    Extra.polygonSides e <= Extra.polygonSides e' /\
    Extra.polygonSides e' <= 30 /\
    (maxNestedDepth b <= nestedDepth b + 1 -> e' = e).
Proof.
  intros Ht Hs. unfold tier2 in *. rewrite handleRecursiveUpdates_unfold.
  pose proof (updateInner_frame b dt) as F. cbv zeta in F.
  destruct F as (_ & _ & _ & _ & _ & _ & _ & _ & _ & Fi).
  destruct (inner b) as [ip|]; [|discriminate].
  destruct Fi as (ip1 & E1 & _ & _ & _ & Hex & _). rewrite E1.
  assert (Hcases : forall s', (s' = Extra.polygonSides e \/
                               s' = Rmin 30 (Extra.polygonSides e + 1)) ->
                              Extra.polygonSides e <= s' /\ s' <= 30).
  { intros s' [->| ->]; [lra|]. unfold Rmin.
    destruct (Rle_dec 30 (Extra.polygonSides e + 1)); lra. }
  unfold Rltb. destruct (Rlt_dec (nestedDepth b + 1) (maxNestedDepth b)) as [Hg|Hg].
  - cbn [withInner inner updateExtra Inner.extra]. rewrite Hex, Ht.
    eexists. split; [reflexivity|].
    pose proof (stepExtra_radius (snd (updateInner b dt)) ip1 e dt) as (_ & Hsides).
    cbv zeta in Hsides. split; [exact Hsides|].
    destruct (Hcases _ Hsides) as [H1 H2]. split; [exact H1|]. split; [exact H2|]. lra.
  - rewrite E1, Hex, Ht. exists e. split; [reflexivity|]. split; [left; reflexivity|].
    split; [lra|]. split; [exact Hs|]. reflexivity.
Qed.

Lemma tier2_side_count_witness :
  let e := Extra.mk 4 (ExtraBall.mk 0 0 0 0 2) in
  let ip := Inner.mk 0 0 4 4 (InnerBall.mk 0 0 0 0 6 990) (Some e) in
  let b := BallSim.mk 0 0 0 0 10 900 1 0 2 (Some ip) in
  Extra.polygonSides e <= 30 /\
  exists e', tier2 (handleRecursiveUpdates b 0 0 0 0) = Some e' /\
             Extra.polygonSides e' <= 30.
Proof.
  cbv zeta.
  assert (H30 : Extra.polygonSides (Extra.mk 4 (ExtraBall.mk 0 0 0 0 2)) <= 30)
    by (cbn [Extra.polygonSides]; lra).
  split; [exact H30|].
  destruct (@tier2_side_count
              (BallSim.mk 0 0 0 0 10 900 1 0 2
                 (Some (Inner.mk 0 0 4 4 (InnerBall.mk 0 0 0 0 6 990)
                          (Some (Extra.mk 4 (ExtraBall.mk 0 0 0 0 2))))))
              (Extra.mk 4 (ExtraBall.mk 0 0 0 0 2)) 0 0 0 0 eq_refl H30)
    as (e' & E & _ & _ & Hle & _).
  exists e'. split; assumption.
Defined.
End Events.

(** ** The invariant of the application *)

Section Invariant.
Import BallSim App.

Lemma integerBetween_step (lo hi : Z) (s : R) :
  integerBetween lo hi s -> integerBetween lo hi (Rmin (IZR hi) (s + 1)).
Proof.
  intros (k & -> & Hk). unfold Rmin.
  destruct (Rle_dec (IZR hi) (IZR k + 1)) as [Hle|Hgt].
  - exists hi. split; [reflexivity|]. lia.
  - exists (k + 1)%Z. split; [rewrite plus_IZR; reflexivity|].
    apply Rnot_le_lt in Hgt. rewrite <- plus_IZR in Hgt. apply lt_IZR in Hgt. lia.
Qed.

Lemma handleCollisionWithPolygon_radius (b : BallSim.t R) (p : Polygon.t) :
  radius (snd (fst (handleCollisionWithPolygon b p))) = radius b.
Proof.
  unfold handleCollisionWithPolygon.
  destruct (Polygon.collideCircle _ _ _ _) as [[col|] q]; reflexivity.
Qed.

(** The nested state keeps its shape through [handleRecursiveUpdates]
    called, as the driver does, with depth 0. *)
Lemma handleRecursiveUpdates_nested (b : BallSim.t R) (dt u1 u2 : R) :
  nestedInvariant b -> nestedInvariant (handleRecursiveUpdates b dt 0 u1 u2).
Proof.
  intros Hinv ip' Hip'.
  pose proof (handleRecursiveUpdates_outer b dt 0 u1 u2) as (_ & _ & _ & _ & Hr & _).
  cbv zeta in Hr. rewrite Hr. clear Hr.
  rewrite handleRecursiveUpdates_unfold in Hip'.
  pose proof (updateInner_frame b dt) as F. cbv zeta in F.
  destruct F as (_ & _ & _ & _ & _ & _ & _ & _ & _ & Fi).
  pose proof (updateInner_shape b dt) as (_ & _ & _ & Hsh). cbv zeta in Hsh.
  destruct (inner b) as [ip|] eqn:E.
  2:{ rewrite E in Hip'. discriminate. }
  specialize (Hinv ip E). destruct Hinv as (Icx & Icy & Irad & Isides & Ibr & Iextra).
  destruct Fi as (ip1 & E1 & Hcx & Hcy & Hrad & Hex & Hbr & _).
  destruct Hsh as (ip1' & E1' & _ & _ & Hsides).
  rewrite E1 in E1'. injection E1' as <-. rewrite E1 in Hip'.
  assert (Isides1 : integerBetween 4 20 (Inner.polygonSides ip1)).
  { rewrite Hsides. destruct (fst (updateInner b dt)); [|exact Isides].
    apply (integerBetween_step 4 20). exact Isides. }
  assert (Iextra1 : forall e, Inner.extra ip1 = Some e ->
            integerBetween 4 30 (Extra.polygonSides e) /\
            ExtraBall.radius (Extra.ball e)
              = Rmax 2 (InnerBall.radius (Inner.ball ip1) * (35 / 100))).
  { intros e He. rewrite Hex in He. rewrite Hbr. apply Iextra. exact He. }
  destruct (Rltb (nestedDepth b + 1) (maxNestedDepth b)).
  - cbn [withInner inner] in Hip'. injection Hip' as <-.
    unfold updateExtra. cbn [Inner.cx Inner.cy Inner.radius Inner.polygonSides Inner.ball
                             Inner.extra].
    do 3 (split; [congruence|]). split; [exact Isides1|]. split; [congruence|].
    intros e' [= <-].
    assert (He0 : forall e0,
              integerBetween 4 30 (Extra.polygonSides e0) ->
              ExtraBall.radius (Extra.ball e0)
                = Rmax 2 (InnerBall.radius (Inner.ball ip1) * (35 / 100)) ->
              integerBetween 4 30
                (Extra.polygonSides (stepExtra (snd (updateInner b dt)) ip1 e0 dt)) /\
              ExtraBall.radius (Extra.ball (stepExtra (snd (updateInner b dt)) ip1 e0 dt))
                = Rmax 2 (InnerBall.radius (Inner.ball ip1) * (35 / 100))).
    { intros e0 Hs0 Hr0.
      pose proof (stepExtra_radius (snd (updateInner b dt)) ip1 e0 dt) as (Hrr & Hss).
      cbv zeta in Hrr, Hss. split; [|congruence].
      destruct Hss as [-> | ->]; [exact Hs0|]. apply (integerBetween_step 4 30). exact Hs0. }
    destruct (Inner.extra ip1) as [e|] eqn:Ee.
    + destruct (Iextra1 e eq_refl) as [Hs0 Hr0]. apply He0; assumption.
    + apply He0.
      * unfold newExtra. cbn [Extra.polygonSides]. js_R. exists 4%Z.
        split; [rewrite Rmax_right by lra; lra | lia].
      * unfold newExtra. cbn [Extra.ball ExtraBall.radius]. js_R. unfold dec. js_R.
        reflexivity.
  - rewrite E1 in Hip'. injection Hip' as <-.
    do 3 (split; [congruence|]). split; [exact Isides1|]. split; [congruence|].
    exact Iextra1.
Qed.

Lemma init_invariant (w : World.t R) (W H u1 u2 : R) : appInvariant (init w W H u1 u2).
Proof.
  unfold appInvariant, init. cbn [World.ball World.worldPolygon World.maxNestedDepth].
  eexists; eexists. split; [reflexivity|]. split; [reflexivity|].
  split; [constructor|].
  split.
  { unfold Polygon.new, initialSides. cbn [Polygon.updateVertices Polygon.sides]. js_R.
    rewrite ZfloorZ. lia. }
  unfold new. cbn [orElse nullish Options.radius Options.gravity Options.friction
                   Options.nestedDepth Options.maxNestedDepth].
  js_R. unfold dec. js_R. rewrite (Rtruthy_orElse 0).
  set (bRadius := Rmax 24 (Rmin W H * (38 / 100) * (12 / 100))).
  assert (Hb24 : 24 <= bRadius) by apply Rmax_l.
  rewrite (Rtruthy_true bRadius) by lra.
  cbn [nestedDepth maxNestedDepth radius inner].
  split; [reflexivity|]. split; [reflexivity|]. split; [exact Hb24|].
  split.
  { intros Hm. rewrite Rltb_true by exact Hm. discriminate. }
  intros ip. cbn [radius]. destruct (Rltb 0 (World.maxNestedDepth w)); [|discriminate].
  intros [= <-].
  cbn [Inner.cx Inner.cy Inner.radius Inner.polygonSides Inner.ball Inner.extra
       InnerBall.radius].
  repeat (split; [reflexivity|]).
  split; [exists 4%Z; split; [rewrite Rmax_right by lra; lra | lia]|].
  split; [reflexivity|]. intros e. discriminate.
Qed.

Lemma update_invariant (w : World.t R) (dt W H u1 u2 : R) :
  appInvariant w -> appInvariant (update w dt W H u1 u2).
Proof.
  intros (b & p & Hb & Hp & C & H6 & Hd & Hm & Hr & Hin & Hnest).
  rewrite (update_result w b p dt W H u1 u2 Hb Hp). cbv zeta.
  set (b1 := integrate (applyGravity b dt) dt).
  pose proof (handleCollisionWithPolygon_shape b1 p) as (Sd & Sm & Si).
  pose proof (handleCollisionWithPolygon_radius b1 p) as Sr.
  cbv zeta in Sd, Sm, Si.
  set (res := handleCollisionWithPolygon b1 p) in *.
  match goal with
  | |- context [handleRecursiveUpdates ?b0 dt 0 u1 u2] => set (b3 := b0)
  end.
  assert (E3 : nestedDepth b3 = nestedDepth b /\ maxNestedDepth b3 = maxNestedDepth b /\
               radius b3 = radius b /\ inner b3 = inner b).
  { subst b3 b1. cbn [nestedDepth maxNestedDepth radius inner].
    cbn [integrate applyGravity nestedDepth maxNestedDepth radius inner] in Sd, Sm, Si, Sr.
    repeat split; assumption. }
  destruct E3 as (E3d & E3m & E3r & E3i).
  pose proof (handleRecursiveUpdates_outer b3 dt 0 u1 u2)
    as (_ & _ & _ & _ & Or & _ & _ & Od & Om).
  cbv zeta in Or, Od, Om.
  unfold appInvariant. cbn [World.ball World.worldPolygon World.maxNestedDepth].
  eexists; eexists. split; [reflexivity|]. split; [reflexivity|].
  split; [destruct (fst (fst res)); [do 2 constructor|]; exact C|].
  split.
  { destruct (fst (fst res)); [|exact H6].
    cbn [Polygon.updateVertices Polygon.setSides Polygon.sides]. js_R.
    rewrite floor_succ by lia. lia. }
  split; [congruence|]. split; [congruence|]. split; [rewrite Or, E3r; exact Hr|].
  split.
  { intros Hpos. apply handleRecursiveUpdates_inner. rewrite E3i. apply Hin.
    rewrite Om, E3m in Hpos. exact Hpos. }
  apply handleRecursiveUpdates_nested.
  intros ip Hip. rewrite E3r. apply Hnest. rewrite <- E3i. exact Hip.
Qed.

Lemma loop_invariant (w : World.t R) (f : Frame.t R) :
  appInvariant w -> appInvariant (loop w f).
Proof.
  intros (b & p & Hb & Hp & Hrest).
  destruct (loop_update w f) as (dt & w0 & -> & Hb0 & Hp0 & Hm0).
  apply update_invariant. exists b, p. rewrite Hb0, Hp0, Hm0.
  split; [exact Hb|]. split; [exact Hp|]. exact Hrest.
Qed.

Lemma depthInput_invariant (w : World.t R) (value : R) :
  appInvariant w -> appInvariant (depthInput w value).
Proof.
  intros (b & p & Hb & Hp & C & H6 & Hd & Hm & Hr & Hin & Hnest).
  unfold appInvariant, depthInput. rewrite Hb.
  cbn [World.ball World.worldPolygon World.maxNestedDepth].
  eexists; exists p. split; [reflexivity|]. split; [exact Hp|].
  split; [exact C|]. split; [exact H6|].
  cbn [nestedDepth maxNestedDepth radius inner]. js_R. unfold dec. js_R.
  split; [reflexivity|]. split; [reflexivity|]. split; [exact Hr|].
  split.
  { intros Hpos. destruct (inner b); [discriminate|].
    rewrite Rltb_true by exact Hpos. discriminate. }
  intros ip. cbn [radius inner]. destruct (inner b) as [ip0|] eqn:E.
  - intros [= <-]. apply Hnest. exact E.
  - destruct (Rltb 0 value); [|discriminate]. intros [= <-].
    cbn [Inner.cx Inner.cy Inner.radius Inner.polygonSides Inner.ball Inner.extra
         InnerBall.radius].
    repeat (split; [reflexivity|]).
    split; [exists 4%Z; split; [rewrite Rmax_right by lra; lra | lia]|].
    split; [reflexivity|]. intros e. discriminate.
Qed.

Lemma pointerdown_invariant (w w' : World.t R) (px py : R) :
  appInvariant w -> pointerdown w px py = Some w' -> appInvariant w'.
Proof.
  intros (b & p & Hb & Hp & C & H6 & Hd & Hm & Hr & Hin & Hnest).
  unfold pointerdown. rewrite Hb. intros [= <-].
  unfold appInvariant. cbn [World.ball World.worldPolygon World.maxNestedDepth].
  eexists; exists p. split; [reflexivity|]. split; [exact Hp|].
  split; [exact C|]. split; [exact H6|].
  cbn [nestedDepth maxNestedDepth radius inner].
  repeat (split; [assumption|]). exact Hnest.
Qed.

(** X15.  In every state the application reaches (after [init], at start
    or on reset, and then through any sequence of animation frames,
    changes of the depth slider and clicks) there is a ball and a world
    polygon; the polygon satisfies the representation invariant and has at
    least 6 sides; the ball has nested depth 0, the maximum depth of the
    slider and a radius of at least 24; an inner level exists whenever the
    maximum depth is positive, is centered at 0 with 0.42 times the radius
    of the ball, has an integer side count between 4 and 20 and a ball of
    radius [max(6, 0.22 * radius)]; and a tier-2 state has an integer side
    count between 4 and 30 and a ball of radius
    [max(2, 0.35 * inner ball radius)].  A click never throws. *)
Theorem reachable_invariant (w : World.t R) :
  reachable w ->
  appInvariant w /\
  (exists p, World.worldPolygon w = Some p /\ representation p) /\
  (forall px py, pointerdown w px py <> None).
Proof.
  intros Hre.
  assert (Hinv : appInvariant w).
  { induction Hre.
    - apply init_invariant.
    - apply loop_invariant. exact IHHre.
    - apply depthInput_invariant. exact IHHre.
    - eapply pointerdown_invariant; eassumption. }
  split; [exact Hinv|].
  destruct Hinv as (b & p & Hb & Hp & C & _).
  split.
  - exists p. split; [exact Hp|]. apply constructed_representation. exact C.
  - intros px py. unfold pointerdown. rewrite Hb. discriminate.
Qed.

Lemma reachable_invariant_witness :
  appInvariant (init (World.mk None None None 3) 800 600 (1 / 2) (1 / 2)).
Proof.
  exact (proj1 (reachable_invariant _
                  (reachable_init (World.mk None None None 3) 800 600 (1 / 2) (1 / 2)))).
Defined.
End Invariant.

(** ** The first frame *)

Section FirstFrame.
Import BallSim App.

Lemma zero_step (b : BallSim.t R) :
  0 < friction b -> integrate (applyGravity b 0) 0 = b.
Proof.
  intros Hf. destruct b as [bx by_ bvx bvy br bg bf bd bm bi].
  unfold integrate, applyGravity.
  cbn [x y vx vy radius gravity friction nestedDepth maxNestedDepth inner] in *. js_R.
  replace (0 * 60) with 0 by ring. rewrite Rpower_O by exact Hf. f_equal; ring.
Qed.

Lemma sqrt3_lower : 1732 / 1000 < R_sqrt.sqrt 3.
Proof.
  rewrite <- (sqrt_square (1732 / 1000)) by lra. apply sqrt_lt_1_alt. lra.
Qed.

(** The ball and the polygon that [init] builds on a canvas of at least
    123 by 123 pixels: the ball does not touch the polygon. *)
Lemma init_clear (w : World.t R) (W H u1 u2 : R) :
  123 <= W -> 123 <= H ->
  exists b p,
    World.ball (init w W H u1 u2) = Some b /\
    World.worldPolygon (init w W H u1 u2) = Some p /\
    Polygon.sides p = 6%Z /\ 0 < friction b /\
    fst (Polygon.collideCircle p (x b) (y b) (radius b)) = None.
Proof.
  intros HW HH. unfold init. cbn [World.ball World.worldPolygon].
  js_R. unfold dec. js_R.
  eexists; eexists. split; [reflexivity|]. split; [reflexivity|].
  set (R0 := Rmin W H * (38 / 100)).
  assert (HR0 : 4674 / 100 <= R0).
  { subst R0. assert (123 <= Rmin W H) by (apply Rmin_glb; assumption). lra. }
  set (p := Polygon.new (W / 2) (H / 2) R0 initialSides (- Rtrigo1.PI / 2)).
  assert (Hrep : representation p) by (apply constructed_representation; constructor).
  assert (Hsides : Polygon.sides p = 6%Z).
  { subst p. unfold Polygon.new, initialSides. cbn [Polygon.updateVertices Polygon.sides].
    js_R. rewrite ZfloorZ. reflexivity. }
  split; [exact Hsides|].
  unfold new. cbn [orElse nullish Options.radius Options.gravity Options.friction
                   Options.nestedDepth Options.maxNestedDepth].
  set (bRadius := Rmax 24 (R0 * (12 / 100))).
  assert (Hb24 : 24 <= bRadius) by (subst bRadius; apply Rmax_l).
  js_R. rewrite (Rtruthy_true bRadius) by lra.
  cbn [x y radius friction]. unfold dec. js_R.
  split; [lra|].
  assert (HRp : Polygon.radius p = R0) by reflexivity.
  assert (Hcen : Polygon.center p = Vec.mk (W / 2) (H / 2)) by reflexivity.
  assert (Hap : apothem p = R0 * (R_sqrt.sqrt 3 / 2)).
  { unfold apothem. rewrite HRp, Hsides, cos_PI6. reflexivity. }
  assert (Hn : (1 <= length (Polygon.vertices p))%nat).
  { destruct Hrep as (H3 & Hl & _). lia. }
  apply collideCircle_miss; [exact Hn|].
  intros j Hj. unfold edgeDistance.
  pose proof (regular_edge_far p Hrep (Vec.mk (W / 2) (H / 2 - R0 * (35 / 100))) j Hj
                ltac:(rewrite HRp; lra)) as Hfar.
  pose proof (distance_triangle (Polygon.center p)
                (Vec.mk (W / 2) (H / 2 - R0 * (35 / 100)))
                (edgeClosest (Polygon.vertices p)
                   (Vec.mk (W / 2) (H / 2 - R0 * (35 / 100))) j)) as Htri.
  assert (Hoff : distance (Polygon.center p) (Vec.mk (W / 2) (H / 2 - R0 * (35 / 100)))
                 = R0 * (35 / 100)).
  { rewrite Hcen. apply distance_eq; [lra|]. cbn [Vec.x Vec.y]. ring. }
  rewrite Hoff, Hap in *.
  pose proof sqrt3_lower as H3.
  assert (Hbig : R0 * (866 / 1000) < R0 * (R_sqrt.sqrt 3 / 2))
    by (apply Rmult_lt_compat_l; lra).
  assert (HbR : bRadius <= 24 \/ bRadius = R0 * (12 / 100)).
  { subst bRadius. unfold Rmax. destruct (Rle_dec 24 (R0 * (12 / 100))); [right|left]; lra. }
  destruct HbR as [Hc|Hc]; lra.
Qed.

(** X16.  On a canvas of at least 123 by 123 pixels [init] places the
    ball clear of the world polygon, and the first animation frame after
    it, which runs with a timestep of 0, reports no collision: the world
    polygon still has its 6 initial sides after that frame. *)
Theorem first_frame_keeps_six_sides (w : World.t R) (W H u1 u2 : R) (f : Frame.t R) :
  123 <= W -> 123 <= H ->
  (exists b p,
     World.ball (init w W H u1 u2) = Some b /\
     World.worldPolygon (init w W H u1 u2) = Some p /\
     Polygon.sides p = 6%Z /\
     handleCollisionWithPolygon b p = (false, b, p)) /\
  worldSides (init w W H u1 u2) = Some 6%Z /\
  worldSides (loop (init w W H u1 u2) f) = Some 6%Z.
Proof.
  intros HW HH.
  destruct (init_clear w W H u1 u2 HW HH) as (b & p & Hb & Hp & Hs & Hf & Hmiss).
  assert (Hno : handleCollisionWithPolygon b p = (false, b, p)).
  { unfold handleCollisionWithPolygon.
    pose proof (collideCircle_snd p (x b) (y b) (radius b)) as Hsnd.
    destruct (Polygon.collideCircle p (x b) (y b) (radius b)) as [c q].
    cbn [fst snd] in *. subst c q. reflexivity. }
  split; [exists b, p; repeat split; assumption|].
  split; [unfold worldSides; rewrite Hp; cbn [option_map]; rewrite Hs; reflexivity|].
  assert (Hlast : World.lastTime (init w W H u1 u2) = None) by reflexivity.
  unfold loop. rewrite Hlast. js_R. unfold dec. js_R.
  replace (Rmin (33 / 1000) ((Frame.ts f - Frame.ts f) / 1000)) with 0
    by (replace ((Frame.ts f - Frame.ts f) / 1000) with 0 by field;
        symmetry; apply Rmin_right; lra).
  match goal with
  | |- context [update ?w0 0 _ _ _ _] =>
      rewrite (update_result w0 b p 0 (Frame.W f) (Frame.H f) (Frame.u1 f) (Frame.u2 f) Hb Hp)
  end.
  cbv zeta. rewrite (zero_step b Hf), Hno. cbn [fst snd].
  unfold worldSides. cbn [World.worldPolygon option_map]. rewrite Hs. reflexivity.
Qed.

Lemma first_frame_keeps_six_sides_witness :
  123 <= 800 /\ 123 <= 600 /\
  worldSides (loop (init (World.mk None None None 3) 800 600 (1 / 2) (1 / 2))
                   (Frame.mk 16 800 600 (1 / 2) (1 / 2))) = Some 6%Z.
Proof.
  assert (HW : 123 <= 800) by lra. assert (HH : 123 <= 600) by lra.
  split; [exact HW|]. split; [exact HH|].
  exact (proj2 (proj2 (@first_frame_keeps_six_sides (World.mk None None None 3) 800 600
                         (1 / 2) (1 / 2) (Frame.mk 16 800 600 (1 / 2) (1 / 2)) HW HH))).
Defined.
End FirstFrame.
